(** * zson benchmarks: the simdjson NDJSON filter and the tokenizer harness

    A shallow embedding of [bench/simdjson_bench.cpp] and
    [bench/tokenizer_bench.cpp].

    - [size_t] values are integers in [Z] whose increments wrap at [2^64];
    - [double] values are IEEE-754 binary64 numbers, [spec_float] with
      precision 53 and maximal exponent 1024;
    - the input file is a [list byte], command-line arguments are [string]s;
    - the simdjson library, the C library and the clock are an interface
      ([Env]) the two programs are parameterised by;
    - what a program does to the outside world is recorded as a trace of
      [event]s, in program order. *)

From Stdlib.Strings Require Import String Ascii Byte.
From Stdlib Require Import ZArith List Bool Lia Sorted.
From Stdlib Require Import Floats.SpecFloat.
Import ListNotations.

Local Open Scope Z_scope.

(** ** Machine integers *)

Definition SIZE_WIDTH : Z := 64.
Definition size_t_wrap (z : Z) : Z := z mod 2 ^ SIZE_WIDTH.

(** [++x] on a [size_t]. *)
Definition size_incr (z : Z) : Z := size_t_wrap (z + 1).

(** ** Bytes and spans *)

Definition bytes := list byte.

Definition newline : byte := x0a.

Definition is_newline (c : byte) : bool := Byte.eqb c newline.

(** [data[i]] for an offset inside the buffer. *)
Definition byte_at (data : bytes) (i : Z) : byte := nth (Z.to_nat i) data x00.

(** The byte span [buffer[start:end]], end exclusive. *)
Definition slice (data : bytes) (r : Z * Z) : bytes :=
  firstn (Z.to_nat (snd r - fst r)) (skipn (Z.to_nat (fst r)) data).

(** ** build_line_index (simdjson_bench.cpp, lines 36-48) *)

(** [if (i > s) idx.emplace_back(s, i);] *)
Definition emplace_line (idx : list (Z * Z)) (s i : Z) : list (Z * Z) :=
  if s <? i then idx ++ [(s, i)] else idx.

(** The [for (size_t i = 0; i <= len; ++i)] loop.  Every iteration consumes
    one unit of fuel; [None] is a loop that has not left after [fuel]
    iterations. *)
Fixpoint index_loop (fuel : nat) (data : bytes) (len i s : Z)
    (idx : list (Z * Z)) : option (list (Z * Z)) :=
  match fuel with
  | O => None
  | S fuel' =>
      if i <=? len then
        if (i =? len) || is_newline (byte_at data i) then
          index_loop fuel' data len (size_incr i) (size_incr i)
                     (emplace_line idx s i)
        else
          index_loop fuel' data len (size_incr i) s idx
      else Some idx
  end.

Definition build_line_index (data : bytes) (len : Z) : option (list (Z * Z)) :=
  index_loop (Z.to_nat len + 2) data len 0 0 [].

(** *** What the specification calls the lines of a buffer

    This definition follows the words of the specification, not the code:
    the buffer is split on the newline byte, and the zero-length segments
    are dropped. *)
Fixpoint segments (data : bytes) : list bytes :=
  match data with
  | [] => [[]]
  | c :: rest =>
      if is_newline c then [] :: segments rest
      else match segments rest with
           | seg :: more => (c :: seg) :: more
           | [] => [[c]]
           end
  end.

Definition is_empty_segment (seg : bytes) : bool :=
  match seg with [] => true | _ => false end.

Definition nonempty_segments (data : bytes) : list bytes :=
  filter (fun seg => negb (is_empty_segment seg)) (segments data).

(** Ranges in ascending order that do not overlap: every range ends before
    each later one starts. *)
Definition ascending_disjoint (idx : list (Z * Z)) : Prop :=
  StronglySorted (fun r1 r2 => snd r1 < fst r2) idx.

(** A range lies in a buffer of length [len] and is not empty. *)
Definition range_within (len : Z) (r : Z * Z) : Prop :=
  0 <= fst r /\ fst r < snd r /\ snd r <= len.

(** ** double *)

Definition double := spec_float.

Definition prec : Z := 53.
Definition emax : Z := 1024.

Definition double_add : double -> double -> double := SFadd prec emax.
Definition double_sub : double -> double -> double := SFsub prec emax.
Definition double_div : double -> double -> double := SFdiv prec emax.

(** [x < y] and [x > y]; both are false when an operand is a NaN. *)
Definition double_lt (x y : double) : bool := SFltb x y.
Definition double_gt (x y : double) : bool := SFltb y x.
Definition double_eq (x y : double) : bool := SFeqb x y.

(** [(double)n] for an integer [n], rounded to nearest even. *)
Definition double_of_Z (n : Z) : double := binary_normalize prec emax n 0 false.

(** The literals [0.0], [30.0] and [1e9]. *)
Definition d_zero : double := S754_zero false.
Definition d_30 : double := double_of_Z 30.
Definition d_1e9 : double := double_of_Z 1000000000.

(** [(double)file_size / 1e9 / elapsed], as both programs write it. *)
Definition gb_per_sec (file_size : Z) (elapsed : double) : double :=
  double_div (double_div (double_of_Z file_size) d_1e9) elapsed.

(** ** The libraries and the clock *)

(** A [simdjson::error_code] other than [SUCCESS]. *)
Definition error_code := positive.

Inductive simdjson_result (A : Type) : Type :=
| Success (value : A)
| Failure (error : error_code).

Arguments Success {A} value.
Arguments Failure {A} error.

(** What the programs call and do not define: simdjson, [atof], [atoi] and
    the clock behind [now_secs].  A document stream is the list of the
    documents its iterator yields, in order; [get_double doc key] is
    [doc[key].get(val)], [Some val] on [SUCCESS] and [None] on any error;
    [clock_value k] is what the [k]-th call of [now_secs] returns. *)
Class Env : Type := {
  Document : Type;
  padded_string_load : string -> simdjson_result bytes;
  iterate_many : bytes -> Z -> simdjson_result (list Document);
  get_double : Document -> string -> option double;
  clock_value : nat -> double;
  atof : string -> double;
  atoi : string -> Z
}.

(** ** Observable behaviour *)

Inductive stdout_item : Type :=
| Fwrite (data : bytes)
| PrintCount (matched : Z)
| PrintSummary (gb : double) (best : double) (docs : Z).

Inductive stderr_item : Type :=
| FilterUsage
| TokenizerUsage (prog : string)
| LoadError (e : error_code)
| IterateManyError (e : error_code)
| FilterReport (mode : string) (field : string) (gt : double)
    (total matched : Z) (time : double) (throughput : double)
| FileLoaded (gb : double) (size : Z)
| Running (iters : Z)
| TokenizerReport (file_gb : double) (iters : Z) (docs_per_iter : Z)
    (best best_gb avg avg_gb : double).

Inductive event : Type :=
| EvLoad (filename : string)
| EvNow (t : double)
| EvNewParser
| EvIterateMany (json : bytes) (batch_size : Z)
| EvDocument
| EvLookup (key : string)
| EvStdout (o : stdout_item)
| EvStderr (m : stderr_item).

Definition is_now (e : event) : bool :=
  match e with EvNow _ => true | _ => false end.

Definition is_stdout (e : event) : bool :=
  match e with EvStdout _ => true | _ => false end.

Definition is_stderr (e : event) : bool :=
  match e with EvStderr _ => true | _ => false end.

Definition is_load (e : event) : bool :=
  match e with EvLoad _ => true | _ => false end.

(** What reached standard output, in order. *)
Fixpoint stdout_of (tr : list event) : list stdout_item :=
  match tr with
  | [] => []
  | EvStdout o :: rest => o :: stdout_of rest
  | _ :: rest => stdout_of rest
  end.

(** How a run of [main] ends: it returns an exit code, or it reaches
    behaviour the language leaves undefined. *)
Inductive outcome : Type :=
| Exit (code : Z)
| Undefined.

(** ** A monad for the programs' effects *)

Record world : Type := { clock : nat; trace : list event }.

Definition initial_world : world := {| clock := O; trace := [] |}.

Definition io (A : Type) : Type := world -> A * world.

Definition ret {A : Type} (a : A) : io A := fun w => (a, w).

Definition bind {A B : Type} (m : io A) (k : A -> io B) : io B :=
  fun w => let (a, w') := m w in k a w'.

Declare Scope io_scope.
Delimit Scope io_scope with io.
Notation "x <- m ;; k" := (bind m (fun x => k))
  (at level 61, m at next level, right associativity) : io_scope.
Notation "m ;;; k" := (bind m (fun _ => k))
  (at level 61, right associativity) : io_scope.

Definition emit (e : event) : io unit :=
  fun w => (tt, {| clock := clock w; trace := trace w ++ [e] |}).

Section Programs.

Context {E : Env}.

Local Open Scope io_scope.

(** [now_secs()] *)
Definition now_secs : io double :=
  fun w =>
    let t := clock_value (clock w) in
    (t, {| clock := S (clock w); trace := trace w ++ [EvNow t] |}).

Definition BATCH_SIZE : Z := Z.shiftl 1 20.

(** *** simdjson_bench.cpp *)

Record options : Type := {
  filename : option string;
  field : string;
  threshold : double;
  count_only : bool;
  quiet : bool
}.

Definition default_options : options :=
  {| filename := None; field := "age"; threshold := d_30;
     count_only := false; quiet := false |}.

(** [argv[i][0]] *)
Definition first_char (a : string) : ascii :=
  match a with
  | EmptyString => Ascii.zero
  | String c _ => c
  end.

(** The argument loop of [main], lines 59-65; [args] is [argv[i..argc-1]]. *)
Fixpoint parse_args (args : list string) (o : options) : options :=
  match args with
  | [] => o
  | a :: rest =>
      if String.eqb a "--count" then
        parse_args rest {| filename := filename o; field := field o;
                           threshold := threshold o; count_only := true;
                           quiet := quiet o |}
      else if String.eqb a "--quiet" then
        parse_args rest {| filename := filename o; field := field o;
                           threshold := threshold o;
                           count_only := count_only o; quiet := true |}
      else
        match String.eqb a "--field", rest with
        | true, v :: rest' =>
            parse_args rest' {| filename := filename o; field := v;
                                threshold := threshold o;
                                count_only := count_only o;
                                quiet := quiet o |}
        | _, _ =>
            match String.eqb a "--gt", rest with
            | true, v :: rest' =>
                parse_args rest' {| filename := filename o; field := field o;
                                    threshold := atof v;
                                    count_only := count_only o;
                                    quiet := quiet o |}
            | _, _ =>
                if negb (Ascii.eqb (first_char a) "-") then
                  parse_args rest {| filename := Some a; field := field o;
                                     threshold := threshold o;
                                     count_only := count_only o;
                                     quiet := quiet o |}
                else parse_args rest o
            end
        end
  end.

(** The filter predicate, [ok && val > threshold] (line 120), on the result
    of the field lookup. *)
Definition matches (r : option double) (thr : double) : bool :=
  match r with
  | Some val => double_gt val thr
  | None => false
  end.

Record loop_state : Type := {
  total : Z;
  matched : Z;
  line_no : Z;
  out_buf : bytes
}.

Definition initial_loop_state : loop_state :=
  {| total := 0; matched := 0; line_no := 0; out_buf := [] |}.

(** The mode in which matching lines are accumulated and written. *)
Definition output_mode (o : options) : bool :=
  negb (count_only o) && negb (quiet o).

(** Lines 123-127: [n = e - s] bytes from [json.data() + s], then a newline. *)
Definition append_line (json : bytes) (r : Z * Z) (buf : bytes) : bytes :=
  let '(s, e) := r in
  let n := size_t_wrap (e - s) in
  (buf ++ firstn (Z.to_nat n) (skipn (Z.to_nat s) json)) ++ [newline].

(** The body of the benchmark loop, lines 116-132, for one document. *)
Definition filter_step (o : options) (json : bytes) (line_idx : list (Z * Z))
    (st : loop_state) (doc : Document) : loop_state :=
  let total_lines := Z.of_nat (length line_idx) in
  let r := get_double doc (field o) in
  let st1 :=
    if matches r (threshold o) then
      {| total := total st;
         matched := size_incr (matched st);
         line_no := line_no st;
         out_buf :=
           if output_mode o && (line_no st <? total_lines) then
             append_line json
               (nth (Z.to_nat (line_no st)) line_idx (0, 0)) (out_buf st)
           else out_buf st |}
    else st in
  {| total := size_incr (total st1);
     matched := matched st1;
     line_no := size_incr (line_no st1);
     out_buf := out_buf st1 |}.

(** The loop over the document stream, lines 113-133. *)
Fixpoint filter_loop (o : options) (json : bytes) (line_idx : list (Z * Z))
    (docs : list Document) (st : loop_state) : io loop_state :=
  match docs with
  | [] => ret st
  | doc :: rest =>
      emit EvDocument ;;;
      emit (EvLookup (field o)) ;;;
      filter_loop o json line_idx rest (filter_step o json line_idx st doc)
  end.

Definition mode_name (o : options) : string :=
  if count_only o then "count"
  else if quiet o then "filter(no-output)" else "filter+output".

(** Lines 137-143. *)
Definition flush_output (o : options) (st : loop_state) : io unit :=
  (if output_mode o && negb (is_empty_segment (out_buf st))
   then emit (EvStdout (Fwrite (out_buf st))) else ret tt) ;;;
  (if count_only o
   then emit (EvStdout (PrintCount (matched st))) else ret tt).

(** [main] of simdjson_bench.cpp; [argv] includes the program name. *)
Definition filter_main (argv : list string) : io outcome :=
  let o := parse_args (tl argv) default_options in
  match filename o with
  | None => emit (EvStderr FilterUsage) ;;; ret (Exit 1)
  | Some f =>
      emit (EvLoad f) ;;;
      match padded_string_load f with
      | Failure e => emit (EvStderr (LoadError e)) ;;; ret (Exit 1)
      | Success json =>
          let file_size := Z.of_nat (length json) in
          match build_line_index json file_size with
          | None => ret Undefined
          | Some line_idx =>
              emit EvNewParser ;;;
              emit (EvIterateMany json BATCH_SIZE) ;;;
              match iterate_many json BATCH_SIZE with
              | Failure e =>
                  emit (EvStderr (IterateManyError e)) ;;; ret (Exit 1)
              | Success docs =>
                  t0 <- now_secs ;;
                  st <- filter_loop o json line_idx docs initial_loop_state ;;
                  t1 <- now_secs ;;
                  let elapsed := double_sub t1 t0 in
                  flush_output o st ;;;
                  emit (EvStderr
                          (FilterReport (mode_name o) (field o) (threshold o)
                             (total st) (matched st) elapsed
                             (gb_per_sec file_size elapsed))) ;;;
                  ret (Exit 0)
              end
          end
      end
  end.

(** *** tokenizer_bench.cpp *)

Definition DEFAULT_ITERS : Z := 5.

Definition SENTINEL_KEY : string := "__z__".

(** The warm-up loop body, lines 62-65: the document is only dereferenced. *)
Fixpoint warmup_loop (docs : list Document) : io unit :=
  match docs with
  | [] => ret tt
  | _ :: rest => emit EvDocument ;;; warmup_loop rest
  end.

(** Lines 58-67. *)
Definition warm_up (json : bytes) : io unit :=
  emit EvNewParser ;;;
  emit (EvIterateMany json BATCH_SIZE) ;;;
  match iterate_many json BATCH_SIZE with
  | Success docs => warmup_loop docs
  | Failure _ => ret tt
  end.

(** The timed loop body, lines 89-98; [docs] is the [size_t] counter. *)
Fixpoint tokenize_loop (stream : list Document) (docs : Z) : io Z :=
  match stream with
  | [] => ret docs
  | _ :: rest =>
      emit EvDocument ;;;
      emit (EvLookup SENTINEL_KEY) ;;;
      tokenize_loop rest (size_incr docs)
  end.

(** One timed iteration, lines 82-101: its elapsed time and document count. *)
Definition timed_pass (json : bytes) : io (double * Z) :=
  emit EvNewParser ;;;
  t0 <- now_secs ;;
  emit (EvIterateMany json BATCH_SIZE) ;;;
  docs <- match iterate_many json BATCH_SIZE with
          | Success stream => tokenize_loop stream 0
          | Failure _ => ret 0
          end ;;
  t1 <- now_secs ;;
  ret (double_sub t1 t0, docs).

Record bench_state : Type := {
  total_time : double;
  total_docs : Z;
  run_times : list double
}.

Definition initial_bench_state : bench_state :=
  {| total_time := d_zero; total_docs := 0; run_times := [] |}.

(** [for (int iter = 0; iter < iters; ++iter)], lines 81-105, with [n] the
    iterations still to run. *)
Fixpoint timed_iterations (n : nat) (json : bytes) (st : bench_state)
    : io bench_state :=
  match n with
  | O => ret st
  | S n' =>
      r <- timed_pass json ;;
      timed_iterations n' json
        {| total_time := double_add (total_time st) (fst r);
           total_docs := size_t_wrap (total_docs st + snd r);
           run_times := run_times st ++ [fst r] |}
  end.

(** [for (double t : run_times) if (t < best) best = t;] *)
Definition best_time (first : double) (times : list double) : double :=
  fold_left (fun best t => if double_lt t best then t else best) times first.

(** The report stage, lines 107-130.  [run_times[0]] on an empty vector and
    the [size_t] division by zero are undefined. *)
Definition tokenizer_report (file_size iters : Z) (st : bench_state)
    : io outcome :=
  match run_times st with
  | [] => ret Undefined
  | first :: _ =>
      let best := best_time first (run_times st) in
      let avg := double_div (total_time st) (double_of_Z iters) in
      if size_t_wrap iters =? 0 then ret Undefined
      else
        let docs_per_iter := total_docs st / size_t_wrap iters in
        emit (EvStderr
                (TokenizerReport (double_div (double_of_Z file_size) d_1e9)
                   iters docs_per_iter
                   best (gb_per_sec file_size best)
                   avg (gb_per_sec file_size avg))) ;;;
        emit (EvStdout
                (PrintSummary (gb_per_sec file_size best) best
                   docs_per_iter)) ;;;
        ret (Exit 0)
  end.

(** [main] of tokenizer_bench.cpp; [argv] includes the program name. *)
Definition tokenizer_main (argv : list string) : io outcome :=
  match argv with
  | [] | [_] =>
      emit (EvStderr (TokenizerUsage (hd EmptyString argv))) ;;; ret (Exit 1)
  | _ :: f :: more =>
      let iters := match more with
                   | a :: _ => atoi a
                   | [] => DEFAULT_ITERS
                   end in
      emit (EvLoad f) ;;;
      match padded_string_load f with
      | Failure e => emit (EvStderr (LoadError e)) ;;; ret (Exit 1)
      | Success json =>
          let file_size := Z.of_nat (length json) in
          emit (EvStderr
                  (FileLoaded (double_div (double_of_Z file_size) d_1e9)
                     file_size)) ;;;
          warm_up json ;;;
          emit (EvStderr (Running iters)) ;;;
          st <- timed_iterations (Z.to_nat iters) json initial_bench_state ;;
          tokenizer_report file_size iters st
      end
  end.

End Programs.

(** ** Notions used to state the properties *)

(** The index loop without the machine: [suf] is what is left of the buffer
    at offset [i]. *)
Fixpoint scan (suf : bytes) (i s : Z) (idx : list (Z * Z)) : list (Z * Z) :=
  match suf with
  | [] => emplace_line idx s i
  | c :: rest =>
      if is_newline c then scan rest (i + 1) (i + 1) (emplace_line idx s i)
      else scan rest (i + 1) s idx
  end.

(** [cur] put in front of the first segment. *)
Definition glue (cur : bytes) (segs : list bytes) : list bytes :=
  match segs with
  | seg :: more => (cur ++ seg) :: more
  | [] => [cur]
  end.

Definition no_newline (seg : bytes) : Prop :=
  Forall (fun c => is_newline c = false) seg.

(** A range starts at the beginning of the buffer or right after a newline
    byte, and ends at the end of the buffer or right before a newline
    byte. *)
Definition delimited (data : bytes) (r : Z * Z) : Prop :=
  (fst r = 0 \/ is_newline (byte_at data (fst r - 1)) = true)
  /\ (snd r = Z.of_nat (length data)
      \/ is_newline (byte_at data (snd r)) = true).

(** Everything the index of a buffer is. *)
Record indexed (data : bytes) (idx : list (Z * Z)) : Prop := {
  indexed_slices : map (slice data) idx = nonempty_segments data;
  indexed_within : Forall (range_within (Z.of_nat (length data))) idx;
  indexed_ascending : ascending_disjoint idx;
  indexed_delimited : Forall (delimited data) idx;
  indexed_length : (length idx <= length data + 1)%nat
}.

(** The number of lines in a byte string: its newline bytes. *)
Definition line_count (data : bytes) : nat :=
  length (filter is_newline data).

(** The bytes that [fwrite] put on standard output. *)
Fixpoint written_bytes (items : list stdout_item) : bytes :=
  match items with
  | [] => []
  | Fwrite data :: rest => data ++ written_bytes rest
  | _ :: rest => written_bytes rest
  end.

(** The events of a pass over a stream that looks [key] up in every
    document. *)
Definition lookup_events {A : Type} (key : string) (docs : list A)
    : list event :=
  flat_map (fun _ => [EvDocument; EvLookup key]) docs.

(** The events of the warm-up pass over a stream. *)
Definition deref_events {A : Type} (docs : list A) : list event :=
  map (fun _ => EvDocument) docs.

Definition INT_MAX : Z := 2 ^ 31 - 1.

(** The values of a [size_t]. *)
Definition in_size_t (z : Z) : Prop := 0 <= z < 2 ^ SIZE_WIDTH.

Section Notions.

Context {E : Env}.

(** Whether a document passes the filter. *)
Definition doc_matches (o : options) (doc : Document) : bool :=
  matches (get_double doc (field o)) (threshold o).

Definition match_count (o : options) (docs : list Document) : nat :=
  length (filter (doc_matches o) docs).

(** The whole benchmark loop on the loop state alone. *)
Definition filter_run (o : options) (json : bytes) (line_idx : list (Z * Z))
    (docs : list Document) (st : loop_state) : loop_state :=
  fold_left (filter_step o json line_idx) docs st.

(** Documents and line ranges paired by position; each matching pair
    contributes the bytes of its range and a newline. *)
Definition emitted (o : options) (json : bytes) (line_idx : list (Z * Z))
    (docs : list Document) : bytes :=
  flat_map (fun p => if doc_matches o (fst p)
                     then slice json (snd p) ++ [newline] else [])
           (combine docs line_idx).

(** What [flush_output] puts on standard output. *)
Definition flushed (o : options) (st : loop_state) : list stdout_item :=
  (if output_mode o && negb (is_empty_segment (out_buf st))
   then [Fwrite (out_buf st)] else [])
  ++ (if count_only o then [PrintCount (matched st)] else []).

(** The report of the filter tool for a pass timed from [t0] to [t1]. *)
Definition filter_report (o : options) (file_size : Z) (st : loop_state)
    (t0 t1 : double) : stderr_item :=
  FilterReport (mode_name o) (field o) (threshold o) (total st) (matched st)
    (double_sub t1 t0) (gb_per_sec file_size (double_sub t1 t0)).

(** The trace of a run of the filter tool that loads [json] from [f], sets
    the stream up, finds [docs] in it and leaves the loop in state [st]. *)
Definition filter_trace (o : options) (f : string) (json : bytes)
    (docs : list Document) (st : loop_state) : list event :=
  [EvLoad f; EvNewParser; EvIterateMany json BATCH_SIZE;
   EvNow (clock_value 0)]
  ++ lookup_events (field o) docs
  ++ [EvNow (clock_value 1)]
  ++ map EvStdout (flushed o st)
  ++ [EvStderr (filter_report o (Z.of_nat (length json)) st
                  (clock_value 0) (clock_value 1))].

(** The events of one timed iteration of the tokenizer whose clock reads
    are number [k] and [k + 1]. *)
Definition stream_docs (json : bytes) : list Document :=
  match iterate_many json BATCH_SIZE with
  | Success docs => docs
  | Failure _ => []
  end.

Definition pass_events (json : bytes) (k : nat) : list event :=
  [EvNewParser; EvNow (clock_value k); EvIterateMany json BATCH_SIZE]
  ++ lookup_events SENTINEL_KEY (stream_docs json)
  ++ [EvNow (clock_value (S k))].

Definition warmup_events (json : bytes) : list event :=
  [EvNewParser; EvIterateMany json BATCH_SIZE]
  ++ deref_events (stream_docs json).

(** The clock readings that open the [n] timed iterations when the clock
    has been read [k] times before: each iteration reads it twice. *)
Fixpoint clock_starts (k n : nat) : list nat :=
  match n with
  | O => []
  | S n' => k :: clock_starts (S (S k)) n'
  end.

(** The elapsed time of an iteration opened by clock reading [c]. *)
Definition elapsed_at (c : nat) : double :=
  double_sub (clock_value (S c)) (clock_value c).

(** The documents one timed iteration counts. *)
Definition pass_docs (json : bytes) : Z :=
  size_t_wrap (Z.of_nat (length (stream_docs json))).

(** [total_docs] after [n] more iterations of [per_pass] documents each. *)
Fixpoint docs_after (n : nat) (per_pass total : Z) : Z :=
  match n with
  | O => total
  | S n' => docs_after n' per_pass (size_t_wrap (total + per_pass))
  end.

(** The trace of the tokenizer tool up to the report stage, for a file [f]
    that loads as [json]: the load, the warm-up and the timed iterations. *)
Definition tokenizer_prefix (f : string) (json : bytes) (iters : Z)
    : list event :=
  [EvLoad f;
   EvStderr (FileLoaded
               (double_div (double_of_Z (Z.of_nat (length json))) d_1e9)
               (Z.of_nat (length json)))]
  ++ warmup_events json
  ++ [EvStderr (Running iters)]
  ++ flat_map (pass_events json) (clock_starts 0 (Z.to_nat iters)).

(** The elapsed times of the timed iterations, in the order of the runs. *)
Definition recorded_times (iters : Z) : list double :=
  map elapsed_at (clock_starts 0 (Z.to_nat iters)).

(** The iteration count of a tokenizer command line, line 44. *)
Definition iterations (argv : list string) : Z :=
  match argv with
  | _ :: _ :: a :: _ => atoi a
  | _ => DEFAULT_ITERS
  end.

(** Why a run ends with exit code 1. *)
Inductive failure : Type :=
| NoFilename
| CannotLoad (e : error_code)
| CannotStream (e : error_code).

(** The failure cases of the filter tool. *)
Definition filter_failure (argv : list string) : option failure :=
  match filename (parse_args (tl argv) default_options) with
  | None => Some NoFilename
  | Some f =>
      match padded_string_load f with
      | Failure e => Some (CannotLoad e)
      | Success json =>
          match iterate_many json BATCH_SIZE with
          | Failure e => Some (CannotStream e)
          | Success _ => None
          end
      end
  end.

(** The failure cases of the tokenizer tool. *)
Definition tokenizer_failure (argv : list string) : option failure :=
  match argv with
  | _ :: f :: _ =>
      match padded_string_load f with
      | Failure e => Some (CannotLoad e)
      | Success _ => None
      end
  | _ => Some NoFilename
  end.

(** A run that ends in a diagnostic on standard error, with no clock
    reading and nothing on standard output before it. *)
Definition fails_with_diagnostic (r : outcome * world) : Prop :=
  fst r = Exit 1
  /\ clock (snd r) = O
  /\ Forall (fun e => is_now e = false /\ is_stdout e = false)
       (trace (snd r))
  /\ exists (before : list event) (diagnostic : stderr_item),
       trace (snd r) = before ++ [EvStderr diagnostic].

End Notions.

(** ** Sample inputs *)

(** An environment with one file, whatever its name, and a fixed stream;
    a document is the result of looking the key ["age"] up in it, and every
    other key is absent.  The clock advances by one second per reading. *)
Definition sample_env (file : simdjson_result bytes)
    (stream : simdjson_result (list (option double))) : Env :=
  {| Document := option double;
     padded_string_load := fun _ => file;
     iterate_many := fun _ _ => stream;
     get_double := fun doc key => if String.eqb key "age" then doc else None;
     clock_value := fun k => double_of_Z (Z.of_nat k);
     atof := fun _ => d_30;
     atoi := fun _ => 3 |}.

Definition LF : string := String (ascii_of_nat 10) EmptyString.
Definition DQ : string := String (ascii_of_nat 34) EmptyString.

(** The JSON text of a record with the one key [age]. *)
Definition record (age : string) : string :=
  "{" ++ DQ ++ "age" ++ DQ ++ ":" ++ age ++ "}".

(** Three records, one per line. *)
Definition three_lines : bytes :=
  list_byte_of_string
    (record "25" ++ LF ++ record "35" ++ LF ++ record "30" ++ LF).

Definition three_docs : list (option double) :=
  [Some (double_of_Z 25); Some (double_of_Z 35); Some (double_of_Z 30)].

Definition env_three : Env :=
  sample_env (Success three_lines) (Success three_docs).

(** Two records on one line: the stream yields two documents and the index
    has one range. *)
Definition two_on_a_line : bytes :=
  list_byte_of_string (record "35" ++ " " ++ record "40" ++ LF).

Definition two_docs : list (option double) :=
  [Some (double_of_Z 35); Some (double_of_Z 40)].

Definition env_two_on_a_line : Env :=
  sample_env (Success two_on_a_line) (Success two_docs).

(** The same file under a clock whose first readings are 0, 5, 10, 12, 20
    and 29 seconds: three timed iterations take 5, 2 and 9 seconds. *)
Definition env_three_timed : Env :=
  {| Document := option double;
     padded_string_load := fun _ => Success three_lines;
     iterate_many := fun _ _ => Success three_docs;
     get_double := fun doc key => if String.eqb key "age" then doc else None;
     clock_value := fun k => double_of_Z (nth k [0; 5; 10; 12; 20; 29] 0);
     atof := fun _ => d_30;
     atoi := fun _ => 3 |}.

(** A file that loads and a stream that cannot be set up over it. *)
Definition env_no_stream : Env :=
  sample_env (Success three_lines) (Failure 1%positive).

(** The same file and stream for a command line whose iteration count
    reads as 0. *)
Definition env_zero_iterations : Env :=
  {| Document := option double;
     padded_string_load := fun _ => Success three_lines;
     iterate_many := fun _ _ => Success three_docs;
     get_double := fun doc key => if String.eqb key "age" then doc else None;
     clock_value := fun k => double_of_Z (Z.of_nat k);
     atof := fun _ => d_30;
     atoi := fun _ => 0 |}.

(** A file that cannot be loaded. *)
Definition env_no_file : Env :=
  sample_env (Failure 1%positive) (Failure 1%positive).

(** Command lines of the filter tool. *)
Definition argv_output : list string :=
  ["simdjson_bench"; "data.ndjson"]%string.
Definition argv_count : list string :=
  ["simdjson_bench"; "data.ndjson"; "--count"]%string.
Definition argv_count_quiet : list string :=
  ["simdjson_bench"; "data.ndjson"; "--count"; "--quiet"]%string.

(** What the first of them is parsed into. *)
Definition output_options : options :=
  {| filename := Some "data.ndjson"%string; field := "age";
     threshold := d_30; count_only := false; quiet := false |}.

(** Command lines of the tokenizer tool. *)
Definition argv_default : list string :=
  ["tokenizer_bench"; "data.ndjson"]%string.
Definition argv_three_iterations : list string :=
  ["tokenizer_bench"; "data.ndjson"; "3"]%string.
Definition argv_zero_iterations : list string :=
  ["tokenizer_bench"; "data.ndjson"; "0"]%string.

(** ** Notions for the further properties *)

(** Offset [p] lies in range [r]. *)
Definition in_range (p : Z) (r : Z * Z) : Prop := fst r <= p < snd r.

(** Lines written one after the other, each followed by a newline byte. *)
Definition join_lines (lines : list bytes) : bytes :=
  flat_map (fun l => l ++ [newline]) lines.

(** A line of a well-formed NDJSON file: not empty, no newline byte. *)
Definition proper_line (l : bytes) : Prop := l <> [] /\ no_newline l.

(** The lines marked [true], each followed by a newline byte. *)
Definition kept_lines (keep : list bool) (lines : list bytes) : bytes :=
  flat_map (fun p : bool * bytes =>
              if fst p then snd p ++ [newline] else [])
           (combine keep lines).

(** [argv[i][0] == '-'] *)
Definition starts_with_dash (a : string) : bool :=
  Ascii.eqb (first_char a) "-".

(** A buffer with a blank line and a last line without its newline. *)
Definition ragged_lines : bytes :=
  list_byte_of_string
    (record "25" ++ LF ++ LF ++ record "35" ++ LF ++ record "30").

Section ParserNotions.

Context {E : Env}.

(** The updates the argument loop makes to the options. *)
Definition set_count (o : options) : options :=
  {| filename := filename o; field := field o; threshold := threshold o;
     count_only := true; quiet := quiet o |}.

Definition set_quiet (o : options) : options :=
  {| filename := filename o; field := field o; threshold := threshold o;
     count_only := count_only o; quiet := true |}.

Definition set_field (v : string) (o : options) : options :=
  {| filename := filename o; field := v; threshold := threshold o;
     count_only := count_only o; quiet := quiet o |}.

Definition set_threshold (t : double) (o : options) : options :=
  {| filename := filename o; field := field o; threshold := t;
     count_only := count_only o; quiet := quiet o |}.

Definition set_filename (a : string) (o : options) : options :=
  {| filename := Some a; field := field o; threshold := threshold o;
     count_only := count_only o; quiet := quiet o |}.

(** An argument that reaches the last branch of the loop: it is neither
    [--count] nor [--quiet], and it is [--field] or [--gt] only as the last
    argument, where no value follows it. *)
Definition positional (a : string) (rest : list string) : Prop :=
  a <> "--count"%string /\ a <> "--quiet"%string
  /\ (a = "--field"%string -> rest = [])
  /\ (a = "--gt"%string -> rest = []).

End ParserNotions.

(** A command line of options only, and one whose [--field] takes the
    next flag as its value. *)
Definition argv_options_only : list string :=
  ["simdjson_bench"; "--count"; "--field"; "--quiet"; "-x"]%string.

(** The three-line file with a threshold argument that reads as a NaN. *)
Definition env_nan_threshold : Env :=
  {| Document := option double;
     padded_string_load := fun _ => Success three_lines;
     iterate_many := fun _ _ => Success three_docs;
     get_double := fun doc key => if String.eqb key "age" then doc else None;
     clock_value := fun k => double_of_Z (Z.of_nat k);
     atof := fun _ => S754_nan;
     atoi := fun _ => 3 |}.

Definition argv_count_nan : list string :=
  ["simdjson_bench"; "data.ndjson"; "--count"; "--gt"; "nan"]%string.

Definition argv_quiet : list string :=
  ["simdjson_bench"; "data.ndjson"; "--quiet"]%string.

(** The three-line file with a threshold argument that reads as 20: every
    record matches. *)
Definition env_low_threshold : Env :=
  {| Document := option double;
     padded_string_load := fun _ => Success three_lines;
     iterate_many := fun _ _ => Success three_docs;
     get_double := fun doc key => if String.eqb key "age" then doc else None;
     clock_value := fun k => double_of_Z (Z.of_nat k);
     atof := fun _ => double_of_Z 20;
     atoi := fun _ => 3 |}.

Definition argv_low_threshold : list string :=
  ["simdjson_bench"; "data.ndjson"; "--gt"; "20"]%string.

Definition argv_high_threshold : list string :=
  ["simdjson_bench"; "data.ndjson"; "--gt"; "40"]%string.

(** The same with a threshold argument that reads as 40: no record
    matches. *)
Definition env_high_threshold : Env :=
  {| Document := option double;
     padded_string_load := fun _ => Success three_lines;
     iterate_many := fun _ _ => Success three_docs;
     get_double := fun doc key => if String.eqb key "age" then doc else None;
     clock_value := fun k => double_of_Z (Z.of_nat k);
     atof := fun _ => double_of_Z 40;
     atoi := fun _ => 3 |}.

(** The lines of [three_lines]. *)
Definition three_records : list bytes :=
  [list_byte_of_string (record "25"); list_byte_of_string (record "35");
   list_byte_of_string (record "30")].

(** * Machine integers *)

Module Machine.

Lemma size_incr_small (z : Z) :
  0 <= z -> z + 1 < 2 ^ SIZE_WIDTH -> size_incr z = z + 1.
Proof.
  intros H0 H1. unfold size_incr, size_t_wrap.
  apply Z.mod_small. lia.
Qed.

Lemma size_t_wrap_small (z : Z) : in_size_t z -> size_t_wrap z = z.
Proof. intros H. apply Z.mod_small. exact H. Qed.

Lemma size_incr_wrap (z n : Z) :
  size_incr (size_t_wrap (z + n)) = size_t_wrap (z + (n + 1)).
Proof.
  unfold size_incr, size_t_wrap.
  rewrite Zplus_mod_idemp_l. f_equal. lia.
Qed.

Lemma size_t_wrap_int (iters : Z) :
  1 <= iters <= INT_MAX -> size_t_wrap iters = iters.
Proof.
  intros H. apply size_t_wrap_small.
  unfold in_size_t, INT_MAX, SIZE_WIDTH in *. lia.
Qed.

End Machine.

(** * Traces *)

Module Traces.

Lemma stdout_of_app (a b : list event) :
  stdout_of (a ++ b) = stdout_of a ++ stdout_of b.
Proof.
  induction a as [|e a IH]; [reflexivity|].
  destruct e; cbn; rewrite IH; reflexivity.
Qed.

Lemma stdout_of_lookup_events {A : Type} (key : string) (docs : list A) :
  stdout_of (lookup_events key docs) = [].
Proof. induction docs; cbn; auto. Qed.

Lemma stdout_of_map (items : list stdout_item) :
  stdout_of (map EvStdout items) = items.
Proof. induction items as [|i items IH]; cbn; congruence. Qed.

Lemma stdout_of_deref_events {A : Type} (docs : list A) :
  stdout_of (deref_events docs) = [].
Proof. induction docs; cbn; auto. Qed.

End Traces.

(** * The line index *)

Module LineIndex.
Lemma byte_at_app (pre suf : bytes) (c : byte) :
  byte_at (pre ++ c :: suf) (Z.of_nat (length pre)) = c.
Proof.
  unfold byte_at. rewrite Nat2Z.id.
  rewrite app_nth2 by lia. now rewrite Nat.sub_diag.
Qed.

Lemma index_loop_scan (suf : bytes) :
  forall (pre : bytes) (fuel : nat) (s : Z) (idx : list (Z * Z)),
    Z.of_nat (length (pre ++ suf)) < 2 ^ SIZE_WIDTH - 1 ->
    (length suf + 2 <= fuel)%nat ->
    index_loop fuel (pre ++ suf) (Z.of_nat (length (pre ++ suf)))
      (Z.of_nat (length pre)) s idx
    = Some (scan suf (Z.of_nat (length pre)) s idx).
Proof.
  induction suf as [|c rest IH]; intros pre fuel s idx Hlen Hfuel.
  - rewrite app_nil_r in *. simpl in Hfuel.
    destruct fuel as [|[|fuel]]; try lia.
    cbn [index_loop scan].
    rewrite Z.leb_refl, Z.eqb_refl. cbn [orb].
    rewrite Machine.size_incr_small by lia.
    replace (Z.of_nat (length pre) + 1 <=? Z.of_nat (length pre)) with false
      by (symmetry; apply Z.leb_gt; lia).
    reflexivity.
  - destruct fuel as [|fuel]; [simpl in Hfuel; lia|].
    cbn [index_loop scan].
    assert (Hlt : Z.of_nat (length pre) < Z.of_nat (length (pre ++ c :: rest))).
    { rewrite length_app. simpl. lia. }
    replace (Z.of_nat (length pre) <=? Z.of_nat (length (pre ++ c :: rest)))
      with true by (symmetry; apply Z.leb_le; lia).
    replace (Z.of_nat (length pre) =? Z.of_nat (length (pre ++ c :: rest)))
      with false by (symmetry; apply Z.eqb_neq; lia).
    cbn [orb]. rewrite byte_at_app.
    rewrite Machine.size_incr_small by lia.
    replace (pre ++ c :: rest) with ((pre ++ [c]) ++ rest)
      by (now rewrite <- app_assoc).
    replace (Z.of_nat (length pre) + 1) with (Z.of_nat (length (pre ++ [c])))
      by (rewrite length_app; simpl; lia).
    assert (Hlen' : Z.of_nat (length ((pre ++ [c]) ++ rest))
                    < 2 ^ SIZE_WIDTH - 1).
    { rewrite <- app_assoc. exact Hlen. }
    simpl in Hfuel.
    destruct (is_newline c); apply IH; auto; lia.
Qed.

Lemma build_line_index_scan (data : bytes) :
  Z.of_nat (length data) < 2 ^ SIZE_WIDTH - 1 ->
  build_line_index data (Z.of_nat (length data)) = Some (scan data 0 0 []).
Proof.
  intros Hlen. unfold build_line_index.
  apply (index_loop_scan data [] _ 0 [] Hlen).
  rewrite Nat2Z.id. lia.
Qed.


Lemma scan_acc (suf : bytes) :
  forall i s idx, scan suf i s idx = idx ++ scan suf i s [].
Proof.
  induction suf as [|c rest IH]; intros i s idx; cbn [scan].
  - unfold emplace_line. destruct (s <? i); simpl; auto using app_nil_r.
  - destruct (is_newline c).
    + rewrite IH. rewrite (IH _ _ (emplace_line [] s i)).
      rewrite app_assoc. f_equal.
      unfold emplace_line. destruct (s <? i); simpl; auto using app_nil_r.
    + apply IH.
Qed.

Lemma segments_cons (c : byte) (rest : bytes) :
  segments (c :: rest)
  = if is_newline c then [] :: segments rest else glue [c] (segments rest).
Proof.
  cbn [segments]. destruct (is_newline c); reflexivity.
Qed.

Lemma segments_not_nil (data : bytes) : segments data <> [].
Proof.
  destruct data as [|c rest]; [discriminate|].
  rewrite segments_cons.
  destruct (is_newline c); [discriminate|].
  destruct (segments rest); discriminate.
Qed.

Lemma glue_nil (segs : list bytes) : segs <> [] -> glue [] segs = segs.
Proof. destruct segs; [congruence | reflexivity]. Qed.

Lemma glue_glue (a b : bytes) (segs : list bytes) :
  glue a (glue b segs) = glue (a ++ b) segs.
Proof. destruct segs; cbn [glue]; now rewrite ?app_assoc. Qed.

Lemma slice_middle (pre cur suf : bytes) :
  slice (pre ++ cur ++ suf)
    (Z.of_nat (length pre), Z.of_nat (length (pre ++ cur))) = cur.
Proof.
  unfold slice. cbn [fst snd].
  rewrite length_app, Nat2Z.inj_add, Z.add_simpl_l, !Nat2Z.id.
  rewrite skipn_app, Nat.sub_diag, skipn_all. cbn [skipn app].
  rewrite firstn_app, Nat.sub_diag, firstn_all. cbn [firstn].
  apply app_nil_r.
Qed.

Lemma emplace_line_slices (pre cur suf : bytes) :
  map (slice (pre ++ cur ++ suf))
    (emplace_line [] (Z.of_nat (length pre)) (Z.of_nat (length (pre ++ cur))))
  = filter (fun seg => negb (is_empty_segment seg)) [cur].
Proof.
  unfold emplace_line.
  destruct (Z.ltb_spec (Z.of_nat (length pre))
              (Z.of_nat (length (pre ++ cur)))) as [Hlt|Hge].
  - change (map (slice (pre ++ cur ++ suf))
              ([] ++ [(Z.of_nat (length pre), Z.of_nat (length (pre ++ cur)))]))
      with [slice (pre ++ cur ++ suf)
              (Z.of_nat (length pre), Z.of_nat (length (pre ++ cur)))].
    rewrite slice_middle.
    destruct cur; [rewrite app_nil_r in Hlt; lia | reflexivity].
  - destruct cur; [reflexivity|].
    rewrite length_app in Hge. simpl in Hge. lia.
Qed.

Lemma scan_slices (suf : bytes) :
  forall pre cur : bytes,
    map (slice (pre ++ cur ++ suf))
      (scan suf (Z.of_nat (length (pre ++ cur))) (Z.of_nat (length pre)) [])
    = filter (fun seg => negb (is_empty_segment seg))
        (glue cur (segments suf)).
Proof.
  induction suf as [|c rest IH]; intros pre cur.
  - cbn [scan segments glue]. rewrite emplace_line_slices.
    now rewrite app_nil_r.
  - cbn [scan]. rewrite segments_cons.
    assert (Hnext : Z.of_nat (length (pre ++ cur)) + 1
                    = Z.of_nat (length (pre ++ cur ++ [c]))).
    { rewrite !length_app. simpl. lia. }
    destruct (is_newline c).
    + rewrite scan_acc, map_app, emplace_line_slices.
      cbn [glue]. rewrite app_nil_r.
      change (cur :: segments rest) with ([cur] ++ segments rest).
      rewrite filter_app. f_equal.
      rewrite Hnext.
      specialize (IH (pre ++ cur ++ [c]) []).
      rewrite app_nil_r in IH. cbn [app] in IH.
      rewrite glue_nil in IH by apply segments_not_nil.
      rewrite <- IH. f_equal.
      now rewrite <- !app_assoc.
    + rewrite glue_glue, Hnext.
      specialize (IH pre (cur ++ [c])).
      rewrite <- IH. rewrite <- !app_assoc. reflexivity.
Qed.

Lemma scan_ranges (suf : bytes) :
  forall i s : Z,
    0 <= s <= i ->
    Forall (fun r => s <= fst r /\ fst r < snd r
                     /\ snd r <= i + Z.of_nat (length suf))
      (scan suf i s [])
    /\ ascending_disjoint (scan suf i s []).
Proof.
  unfold ascending_disjoint.
  induction suf as [|c rest IH]; intros i s Hs.
  - cbn [scan]. unfold emplace_line.
    destruct (s <? i) eqn:Hlt; cbn [app].
    + apply Z.ltb_lt in Hlt. split.
      * constructor; [cbn; lia | constructor].
      * repeat constructor.
    + split; constructor.
  - cbn [scan].
    assert (Hlen : Z.of_nat (length (c :: rest))
                   = Z.of_nat (length rest) + 1) by (simpl; lia).
    destruct (is_newline c).
    + rewrite scan_acc.
      destruct (IH (i + 1) (i + 1)) as [Hall Hsorted]; [lia|].
      assert (Hall' : Forall (fun r => s <= fst r /\ fst r < snd r
                       /\ snd r <= i + Z.of_nat (length (c :: rest)))
                (scan rest (i + 1) (i + 1) [])).
      { eapply Forall_impl; [|exact Hall]. cbn beta. intros r Hr. lia. }
      unfold emplace_line. destruct (s <? i) eqn:Hlt; cbn [app].
      * apply Z.ltb_lt in Hlt. split.
        -- constructor; [cbn; lia | exact Hall'].
        -- constructor; [exact Hsorted|].
           eapply Forall_impl; [|exact Hall]. cbn. intros r Hr. lia.
      * split; assumption.
    + destruct (IH (i + 1) s) as [Hall Hsorted]; [lia|].
      split; [|exact Hsorted].
      eapply Forall_impl; [|exact Hall]. cbn beta. intros r Hr. lia.
Qed.

Lemma scan_trailing (suf : bytes) :
  forall (i s : Z) (idx : list (Z * Z)),
    s < i \/ suf <> [] ->
    (suf <> [] -> is_newline (last suf newline) = false) ->
    s <= i ->
    exists idx' s',
      scan suf i s idx = idx' ++ [(s', i + Z.of_nat (length suf))].
Proof.
  induction suf as [|c rest IH]; intros i s idx Hne Hlast Hs.
  - destruct Hne as [Hlt|]; [|congruence].
    cbn [scan]. unfold emplace_line.
    replace (s <? i) with true by (symmetry; apply Z.ltb_lt; lia).
    exists idx, s. cbn [length]. now rewrite Z.add_0_r.
  - cbn [scan].
    replace (i + Z.of_nat (length (c :: rest)))
      with (i + 1 + Z.of_nat (length rest)) by (simpl; lia).
    destruct rest as [|c' rest'].
    + assert (Hc : is_newline c = false) by (apply Hlast; discriminate).
      rewrite Hc. apply IH; [left; lia | congruence | lia].
    + assert (Hlast' : c' :: rest' <> [] ->
                is_newline (last (c' :: rest') newline) = false).
      { intros _. apply Hlast. discriminate. }
      destruct (is_newline c); apply IH; auto; try lia;
        right; discriminate.
Qed.


Lemma scan_length (suf : bytes) :
  forall i s : Z,
    (length (scan suf i s []) <= length suf + 1)%nat.
Proof.
  induction suf as [|c rest IH]; intros i s; cbn [scan].
  - unfold emplace_line. destruct (s <? i); simpl; lia.
  - destruct (is_newline c).
    + rewrite scan_acc, length_app. specialize (IH (i + 1) (i + 1)).
      assert (length (emplace_line [] s i) <= 1)%nat
        by (unfold emplace_line; destruct (s <? i); simpl; lia).
      simpl. lia.
    + specialize (IH (i + 1) s). simpl. lia.
Qed.

Lemma glue_no_newline (cur : bytes) (segs : list bytes) :
  no_newline cur -> Forall no_newline segs -> Forall no_newline (glue cur segs).
Proof.
  intros Hcur Hsegs. destruct segs as [|seg more]; cbn [glue].
  - now constructor.
  - inversion Hsegs; subst. constructor; [|assumption].
    apply Forall_app. now split.
Qed.

Lemma segments_no_newline (data : bytes) : Forall no_newline (segments data).
Proof.
  induction data as [|c rest IH].
  - repeat constructor.
  - rewrite segments_cons. destruct (is_newline c) eqn:Hc.
    + constructor; [constructor | exact IH].
    + apply glue_no_newline; [|exact IH]. now repeat constructor.
Qed.

Lemma scan_delimited (data suf : bytes) :
  forall pre cur : bytes,
    data = pre ++ cur ++ suf ->
    (Z.of_nat (length pre) = 0
     \/ is_newline (byte_at data (Z.of_nat (length pre) - 1)) = true) ->
    Forall (delimited data)
      (scan suf (Z.of_nat (length (pre ++ cur))) (Z.of_nat (length pre)) []).
Proof.
  induction suf as [|c rest IH]; intros pre cur Hdata Hstart.
  - cbn [scan]. unfold emplace_line.
    destruct (Z.of_nat (length pre) <? Z.of_nat (length (pre ++ cur)));
      [|constructor].
    cbn [app]. constructor; [|constructor].
    split; cbn [fst snd]; [exact Hstart|].
    left. rewrite Hdata, app_nil_r. reflexivity.
  - cbn [scan].
    assert (Hc : byte_at data (Z.of_nat (length (pre ++ cur))) = c).
    { rewrite Hdata, app_assoc. apply byte_at_app. }
    assert (Hnext : Z.of_nat (length (pre ++ cur)) + 1
                    = Z.of_nat (length (pre ++ cur ++ [c]))).
    { rewrite !length_app. simpl. lia. }
    destruct (is_newline c) eqn:Hnl.
    + rewrite scan_acc. apply Forall_app. split.
      * unfold emplace_line.
        destruct (Z.of_nat (length pre) <? Z.of_nat (length (pre ++ cur)));
          [|constructor].
        cbn [app]. constructor; [|constructor].
        split; cbn [fst snd]; [exact Hstart|].
        right. now rewrite Hc.
      * rewrite Hnext.
        specialize (IH (pre ++ cur ++ [c]) []).
        rewrite app_nil_r in IH. apply IH.
        -- rewrite Hdata. now rewrite <- ?app_assoc.
        -- right. rewrite <- Hnext, Z.add_simpl_r. now rewrite Hc.
    + rewrite Hnext.
      specialize (IH pre (cur ++ [c])).
      rewrite <- app_assoc in IH. apply IH; [|exact Hstart].
      rewrite Hdata. now rewrite <- ?app_assoc.
Qed.

Lemma scan_indexed (data : bytes) : indexed data (scan data 0 0 []).
Proof.
  split.
  - pose proof (scan_slices data [] []) as H. cbn [app length] in H.
    rewrite glue_nil in H by apply segments_not_nil. exact H.
  - destruct (scan_ranges data 0 0) as [H _]; [lia|].
    eapply Forall_impl; [|exact H]. unfold range_within. intros r Hr. lia.
  - now destruct (scan_ranges data 0 0) as [_ H]; [lia|].
  - apply (scan_delimited data data [] []); [reflexivity | now left].
  - apply scan_length.
Qed.

Lemma indexed_no_newline (data : bytes) (idx : list (Z * Z)) :
  indexed data idx -> Forall (fun r => no_newline (slice data r)) idx.
Proof.
  intros [Hs _ _ _ _]. apply Forall_map. rewrite Hs.
  unfold nonempty_segments.
  apply Forall_forall. intros seg Hin. apply filter_In in Hin.
  pose proof (segments_no_newline data) as H.
  rewrite Forall_forall in H. now apply H.
Qed.

(** C2.  For every buffer whose length [L] is below [2^64 - 1], so that the
    [size_t] counter of the loop reaches [L + 1] without wrapping,
    [build_line_index] returns an index (it never fails), and its loop has
    left within [L + 2] iterations: the byte spans of its ranges are exactly
    the
    non-empty newline-separated segments of the buffer, in order, so empty
    segments are dropped and there is one range per non-empty segment; every
    range is non-empty and inside the buffer; the ranges are ascending and do
    not overlap; every range starts at offset 0 or after a newline and ends
    at [L] or before a newline; when the buffer does not end with a newline
    the last range ends at [L]; and the index of the empty buffer is
    empty. *)
Theorem build_line_index_correct (data : bytes) :
  Z.of_nat (length data) < 2 ^ SIZE_WIDTH - 1 ->
  exists idx : list (Z * Z),
    build_line_index data (Z.of_nat (length data)) = Some idx
    /\ map (slice data) idx = nonempty_segments data
    /\ length idx = length (nonempty_segments data)
    /\ Forall (range_within (Z.of_nat (length data))) idx
    /\ ascending_disjoint idx
    /\ Forall (delimited data) idx
    /\ (is_newline (last data newline) = false ->
        exists idx' s, idx = idx' ++ [(s, Z.of_nat (length data))])
    /\ (data = [] -> idx = []).
Proof.
  intros Hlen. exists (scan data 0 0 []).
  destruct (scan_indexed data) as [Hs Hw Ha Hd _].
  split; [now apply build_line_index_scan|].
  split; [exact Hs|].
  split; [rewrite <- Hs; now rewrite length_map|].
  split; [exact Hw|].
  split; [exact Ha|].
  split; [exact Hd|].
  split.
  - intros Hlast.
    assert (Hne : data <> []).
    { intros ->. cbn in Hlast. discriminate. }
    destruct (scan_trailing data 0 0 []) as (idx' & s' & Heq); auto; try lia.
    exists idx', s'. now rewrite Heq.
  - intros ->. reflexivity.
Qed.

End LineIndex.

Lemma build_line_index_correct_witness :
  Z.of_nat (length three_lines) < 2 ^ SIZE_WIDTH - 1
  /\ exists idx : list (Z * Z),
       build_line_index three_lines (Z.of_nat (length three_lines)) = Some idx
       /\ map (slice three_lines) idx = nonempty_segments three_lines.
Proof.
  assert (H : Z.of_nat (length three_lines) < 2 ^ SIZE_WIDTH - 1)
    by (vm_compute; reflexivity).
  split; [exact H|].
  destruct (LineIndex.build_line_index_correct three_lines H)
    as (idx & H1 & H2 & _).
  exists idx. split; assumption.
Defined.

(** * Comparison of doubles *)

Module Doubles.

(** Swapping the operands of a comparison reverses its result. *)
Lemma SFcompare_swap (x y : double) :
  SFcompare y x = option_map CompOpp (SFcompare x y).
Proof.
  destruct x as [sx|sx| |sx mx ex], y as [sy|sy| |sy my ey];
    cbn [SFcompare option_map]; try reflexivity;
    try (destruct sx; reflexivity); try (destruct sy; reflexivity);
    try (destruct sx, sy; reflexivity).
  change (Pos.compare_cont Eq mx my) with (mx ?= my)%positive.
  change (Pos.compare_cont Eq my mx) with (my ?= mx)%positive.
  rewrite (Z.compare_antisym ex ey), (Pos.compare_antisym mx my).
  destruct sx, sy; try reflexivity;
    destruct (ex ?= ey); cbn [CompOpp]; try reflexivity;
    destruct (mx ?= my)%positive; reflexivity.
Qed.

Lemma SFltb_Lt (x y : double) : SFltb x y = true <-> SFcompare x y = Some Lt.
Proof.
  unfold SFltb. destruct (SFcompare x y) as [[ | | ]|];
    split; congruence.
Qed.

Lemma SFeqb_Eq (x y : double) : SFeqb x y = true <-> SFcompare x y = Some Eq.
Proof.
  unfold SFeqb. destruct (SFcompare x y) as [[ | | ]|];
    split; congruence.
Qed.

Lemma double_gt_Gt (x y : double) :
  double_gt x y = true <-> SFcompare x y = Some Gt.
Proof.
  unfold double_gt. rewrite SFltb_Lt, (SFcompare_swap x y).
  destruct (SFcompare x y) as [[ | | ]|]; cbn; split; congruence.
Qed.

Lemma finite_lt_trans (e1 e2 e3 : Z) (m1 m2 m3 : positive) :
  match e1 ?= e2 with
  | Eq => Pos.compare_cont Eq m1 m2 | c => c end = Lt ->
  match e2 ?= e3 with
  | Eq => Pos.compare_cont Eq m2 m3 | c => c end = Lt ->
  match e1 ?= e3 with
  | Eq => Pos.compare_cont Eq m1 m3 | c => c end = Lt.
Proof.
  change (Pos.compare_cont Eq m1 m2) with (m1 ?= m2)%positive.
  change (Pos.compare_cont Eq m2 m3) with (m2 ?= m3)%positive.
  change (Pos.compare_cont Eq m1 m3) with (m1 ?= m3)%positive.
  destruct (Z.compare_spec e1 e2), (Z.compare_spec e2 e3),
    (Z.compare_spec e1 e3); subst; try lia; try discriminate; auto.
  rewrite !Pos.compare_lt_iff. lia.
Qed.

Lemma finite_gt_trans (e1 e2 e3 : Z) (m1 m2 m3 : positive) :
  match e1 ?= e2 with
  | Eq => CompOpp (Pos.compare_cont Eq m1 m2) | Lt => Gt | Gt => Lt end = Lt ->
  match e2 ?= e3 with
  | Eq => CompOpp (Pos.compare_cont Eq m2 m3) | Lt => Gt | Gt => Lt end = Lt ->
  match e1 ?= e3 with
  | Eq => CompOpp (Pos.compare_cont Eq m1 m3) | Lt => Gt | Gt => Lt end = Lt.
Proof.
  change (Pos.compare_cont Eq m1 m2) with (m1 ?= m2)%positive.
  change (Pos.compare_cont Eq m2 m3) with (m2 ?= m3)%positive.
  change (Pos.compare_cont Eq m1 m3) with (m1 ?= m3)%positive.
  destruct (Z.compare_spec e1 e2), (Z.compare_spec e2 e3),
    (Z.compare_spec e1 e3); subst; try lia; try discriminate; auto.
  destruct (Pos.compare_spec m1 m2), (Pos.compare_spec m2 m3),
    (Pos.compare_spec m1 m3); subst; cbn [CompOpp];
    try lia; try discriminate; auto.
Qed.

(** [<] on doubles is transitive; no operand of a true comparison is a
    NaN. *)
Lemma double_lt_trans (x y z : double) :
  double_lt x y = true -> double_lt y z = true -> double_lt x z = true.
Proof.
  unfold double_lt. rewrite !SFltb_Lt.
  destruct x as [sx|sx| |sx mx ex], y as [sy|sy| |sy my ey],
    z as [sz|sz| |sz mz ez]; cbn [SFcompare]; try discriminate;
    try (destruct sx, sy, sz; (discriminate || reflexivity)).
  destruct sx, sy, sz; try discriminate; try reflexivity;
    intros H1 H2; injection H1 as H1; injection H2 as H2; f_equal.
  - now apply (finite_gt_trans ex ey ez mx my mz).
  - now apply (finite_lt_trans ex ey ez mx my mz).
Qed.

Lemma double_lt_irrefl (x : double) : double_lt x x = false.
Proof.
  unfold double_lt, SFltb.
  destruct x as [s|s| |s m e]; cbn [SFcompare]; try reflexivity.
  - destruct s; reflexivity.
  - change (Pos.compare_cont Eq m m) with (m ?= m)%positive.
    rewrite Z.compare_refl, Pos.compare_refl.
    destruct s; reflexivity.
Qed.

End Doubles.

(** * The filter predicate *)

(** C3.  The filter predicate is a function of the lookup result and the
    threshold, defined on all of them.  On a miss it is false.  On a hit it
    is true exactly when the value compares greater than the threshold: it
    is false when the value is the threshold, it is never true of a value
    equal to the threshold, and it is false whenever value and threshold
    compare equal, less or unordered. *)
Theorem matches_strictly_greater (thr : double) :
  matches None thr = false
  /\ matches (Some thr) thr = false
  /\ (forall val : double,
        double_eq val thr && matches (Some val) thr = false)
  /\ (forall val : double,
        matches (Some val) thr
        = match SFcompare val thr with
          | Some Gt => true
          | Some Eq | Some Lt | None => false
          end).
Proof.
  split; [reflexivity|].
  split; [apply Doubles.double_lt_irrefl|].
  split.
  { intros val. cbn [matches].
    pose proof (Doubles.double_gt_Gt val thr) as H.
    unfold double_eq, SFeqb.
    destruct (SFcompare val thr) as [[ | | ]|]; try reflexivity.
    destruct (double_gt val thr); [|reflexivity].
    destruct H as [H _]. specialize (H eq_refl). discriminate. }
  intros val. cbn [matches].
  pose proof (Doubles.double_gt_Gt val thr) as H.
  destruct (SFcompare val thr) as [[ | | ]|];
    destruct (double_gt val thr); try reflexivity;
    solve [ destruct H as [H _]; specialize (H eq_refl); discriminate
          | destruct H as [_ H]; specialize (H eq_refl); discriminate ].
Qed.

(** * The filter tool *)

Module Filter.

Section Loop.

Context {E : Env}.

Variables (o : options) (json : bytes) (line_idx : list (Z * Z)).

Lemma filter_loop_run (docs : list Document) :
  forall (st : loop_state) (w : world),
    filter_loop o json line_idx docs st w
    = (filter_run o json line_idx docs st,
       {| clock := clock w;
          trace := trace w ++ lookup_events (field o) docs |}).
Proof.
  induction docs as [|doc rest IH]; intros st w.
  - cbn. unfold ret. rewrite app_nil_r. now destruct w.
  - cbn [filter_loop]. unfold bind at 1 2. unfold emit at 1 2.
    rewrite IH. cbn. rewrite <- !app_assoc. reflexivity.
Qed.

Lemma filter_step_counters (st : loop_state) (doc : Document) :
  total (filter_step o json line_idx st doc) = size_incr (total st)
  /\ line_no (filter_step o json line_idx st doc) = size_incr (line_no st)
  /\ matched (filter_step o json line_idx st doc)
     = if doc_matches o doc then size_incr (matched st) else matched st.
Proof.
  unfold filter_step, doc_matches.
  destruct (matches (get_double doc (field o)) (threshold o));
    cbn; auto.
Qed.

(** The three counters after the loop, from their values before it. *)
Lemma filter_run_counters (docs : list Document) :
  forall st : loop_state,
    in_size_t (total st) -> in_size_t (line_no st) -> in_size_t (matched st) ->
    let st' := filter_run o json line_idx docs st in
    total st' = size_t_wrap (total st + Z.of_nat (length docs))
    /\ line_no st' = size_t_wrap (line_no st + Z.of_nat (length docs))
    /\ matched st' = size_t_wrap (matched st + Z.of_nat (match_count o docs)).
Proof.
  unfold filter_run, match_count.
  induction docs as [|doc rest IH]; intros st Ht Hl Hm.
  - cbn. rewrite !Z.add_0_r, !Machine.size_t_wrap_small; auto.
  - cbn [fold_left filter length].
    destruct (filter_step_counters st doc) as (Et & El & Em).
    assert (Hwrap : forall z, in_size_t (size_incr z)).
    { intros z. unfold size_incr, size_t_wrap, in_size_t.
      apply Z.mod_pos_bound. reflexivity. }
    destruct (IH (filter_step o json line_idx st doc)) as (It & Il & Im).
    + rewrite Et. apply Hwrap.
    + rewrite El. apply Hwrap.
    + rewrite Em. destruct (doc_matches o doc); [apply Hwrap | exact Hm].
    + cbv zeta in It, Il, Im |- *. rewrite It, Il, Im, Et, El, Em.
      unfold size_incr, size_t_wrap.
      rewrite !Zplus_mod_idemp_l.
      repeat split; try (f_equal; lia).
      destruct (doc_matches o doc); cbn [length].
      * rewrite Zplus_mod_idemp_l. f_equal. lia.
      * reflexivity.
Qed.

Lemma skipn_nth (k : nat) (d : Z * Z) :
  forall l : list (Z * Z),
    (k < length l)%nat -> skipn k l = nth k l d :: skipn (S k) l.
Proof.
  induction k as [|k IH]; intros [|x l] Hk; simpl in Hk; try lia.
  - reflexivity.
  - cbn [skipn nth]. rewrite IH by lia. reflexivity.
Qed.

Lemma append_line_slice (r : Z * Z) (buf : bytes) (len : Z) :
  range_within len r -> len < 2 ^ SIZE_WIDTH ->
  append_line json r buf = buf ++ slice json r ++ [newline].
Proof.
  destruct r as [s e]. unfold range_within, append_line, slice. cbn [fst snd].
  intros Hr Hlen. rewrite Machine.size_t_wrap_small by (unfold in_size_t; lia).
  now rewrite <- app_assoc.
Qed.

Lemma emitted_cons (doc : Document) (docs : list Document) (r : Z * Z)
    (rest : list (Z * Z)) :
  emitted o json (r :: rest) (doc :: docs)
  = (if doc_matches o doc then slice json r ++ [newline] else [])
    ++ emitted o json rest docs.
Proof. reflexivity. Qed.

Lemma emitted_nil (docs : list Document) : emitted o json [] docs = [].
Proof. unfold emitted. now rewrite combine_nil. Qed.

(** In output mode the loop appends, for the documents it is given, what
    [emitted] says for the ranges from the current line on. *)
Lemma filter_run_out_buf (len : Z) (docs : list Document) :
  output_mode o = true ->
  Forall (range_within len) line_idx -> len < 2 ^ SIZE_WIDTH ->
  forall (st : loop_state) (k : nat),
    line_no st = Z.of_nat k ->
    Z.of_nat k + Z.of_nat (length docs) < 2 ^ SIZE_WIDTH ->
    out_buf (filter_run o json line_idx docs st)
    = out_buf st ++ emitted o json (skipn k line_idx) docs.
Proof.
  intros Hmode Hidx Hlen. unfold filter_run.
  induction docs as [|doc rest IH]; intros st k Hk Hbound.
  - cbn. unfold emitted. cbn. now rewrite app_nil_r.
  - cbn [fold_left]. cbn [length] in Hbound.
    destruct (filter_step_counters st doc) as (_ & El & _).
    rewrite (IH _ (S k)); cycle 1.
    { rewrite El, Hk. unfold size_incr.
      rewrite Machine.size_t_wrap_small by (unfold in_size_t; lia). lia. }
    { lia. }
    unfold filter_step at 1. fold (doc_matches o doc).
    rewrite Hmode, Hk. cbn [andb].
    destruct (Z.ltb_spec (Z.of_nat k) (Z.of_nat (length line_idx)))
      as [Hin|Hout].
    + rewrite (skipn_nth k (0, 0)) by lia. rewrite emitted_cons.
      destruct (doc_matches o doc); cbn [out_buf].
      * rewrite (append_line_slice _ _ len); auto.
        -- rewrite Nat2Z.id. now rewrite <- !app_assoc.
        -- rewrite Nat2Z.id. rewrite Forall_forall in Hidx.
           apply Hidx, nth_In. lia.
      * reflexivity.
    + rewrite (skipn_all2 line_idx (n := k)) by lia.
      rewrite (skipn_all2 line_idx (n := S k)) by lia.
      rewrite !emitted_nil.
      destruct (doc_matches o doc); reflexivity.
Qed.

(** In the other modes the output buffer is left alone. *)
Lemma filter_run_no_output (docs : list Document) :
  output_mode o = false ->
  forall st : loop_state,
    out_buf (filter_run o json line_idx docs st) = out_buf st.
Proof.
  intros Hmode. unfold filter_run.
  induction docs as [|doc rest IH]; intros st; [reflexivity|].
  cbn [fold_left]. rewrite IH. unfold filter_step. rewrite Hmode.
  destruct (matches (get_double doc (field o)) (threshold o)); reflexivity.
Qed.

End Loop.

Section Main.

Context {E : Env}.

Lemma flush_output_run (o : options) (st : loop_state) (w : world) :
  flush_output o st w
  = (tt, {| clock := clock w;
            trace := trace w ++ map EvStdout (flushed o st) |}).
Proof.
  unfold flush_output, flushed, bind, emit, ret. destruct w as [c tr].
  destruct (output_mode o && negb (is_empty_segment (out_buf st)));
    destruct (count_only o); cbn; rewrite <- ?app_assoc, ?app_nil_r;
    reflexivity.
Qed.

(** A run of the filter tool in which the file loads and the stream is set
    up. *)
Lemma filter_main_success (argv : list string) (f : string) (json : bytes)
    (docs : list Document) :
  let o := parse_args (tl argv) default_options in
  filename o = Some f ->
  padded_string_load f = Success json ->
  Z.of_nat (length json) < 2 ^ SIZE_WIDTH - 1 ->
  iterate_many json BATCH_SIZE = Success docs ->
  let st := filter_run o json (scan json 0 0 []) docs initial_loop_state in
  filter_main argv initial_world
  = (Exit 0, {| clock := 2; trace := filter_trace o f json docs st |}).
Proof.
  intros o Hf Hload Hlen Hstream st.
  unfold filter_main. fold o. rewrite Hf.
  unfold bind at 1. unfold emit at 1. rewrite Hload.
  rewrite (LineIndex.build_line_index_scan json Hlen).
  unfold bind at 1 2. unfold emit at 1 2. rewrite Hstream.
  unfold bind at 1. unfold now_secs at 1.
  unfold bind at 1. rewrite filter_loop_run. fold st.
  unfold bind at 1. unfold now_secs at 1.
  unfold bind at 1. rewrite flush_output_run.
  unfold bind, emit, ret. cbn [clock trace initial_world app].
  unfold filter_trace, filter_report.
  rewrite <- !app_assoc. reflexivity.
Qed.

Lemma stdout_of_filter_trace (o : options) (f : string) (json : bytes)
    (docs : list Document) (st : loop_state) :
  stdout_of (filter_trace o f json docs st) = flushed o st.
Proof.
  unfold filter_trace.
  rewrite !Traces.stdout_of_app, Traces.stdout_of_lookup_events.
  rewrite Traces.stdout_of_map.
  cbn [stdout_of app]. apply app_nil_r.
Qed.

Lemma emitted_snoc (o : options) (json : bytes) (pre : list Document)
    (d : Document) :
  forall idx : list (Z * Z),
    emitted o json idx (pre ++ [d])
    = emitted o json idx pre
      ++ match nth_error idx (length pre) with
         | Some r => if doc_matches o d then slice json r ++ [newline] else []
         | None => []
         end.
Proof.
  induction pre as [|p pre IH]; intros [|r idx]; try reflexivity.
  - cbn. now rewrite app_nil_r.
  - cbn [app length nth_error]. rewrite !emitted_cons, IH.
    now rewrite app_assoc.
Qed.

Lemma line_count_app (a b : bytes) :
  line_count (a ++ b) = (line_count a + line_count b)%nat.
Proof. unfold line_count. now rewrite filter_app, length_app. Qed.

Lemma line_count_no_newline (seg : bytes) :
  no_newline seg -> line_count seg = O.
Proof.
  unfold line_count. induction 1 as [|c seg Hc _ IH]; [reflexivity|].
  cbn. now rewrite Hc.
Qed.

(** Every emitted line is one newline byte: the output has as many lines as
    there are matching documents among those that have a range. *)
Lemma line_count_emitted (o : options) (json : bytes) (docs : list Document) :
  forall idx : list (Z * Z),
    Forall (fun r => no_newline (slice json r)) idx ->
    line_count (emitted o json idx docs)
    = match_count o (firstn (length idx) docs).
Proof.
  unfold match_count.
  induction docs as [|d docs IH]; intros [|r idx] Hidx; try reflexivity.
  inversion Hidx as [|? ? Hr Hidx']; subst.
  rewrite emitted_cons, line_count_app, IH by assumption.
  cbn [length firstn filter].
  destruct (doc_matches o d); [|reflexivity].
  rewrite line_count_app, line_count_no_newline by assumption.
  reflexivity.
Qed.

Lemma match_count_le (o : options) (docs : list Document) :
  (match_count o docs <= length docs)%nat.
Proof. apply filter_length_le. Qed.

(** C1, as amended.  In output mode (neither [--count] nor [--quiet] in
    effect), when the file loads, the stream is set up and yields fewer than
    [2^64] documents: the document at position [k] of the stream appends to
    the output buffer exactly [buffer[start:end]] of range [k] of the line
    index followed by one newline byte when it matches and the index has a
    range [k], and appends nothing otherwise (no match, or no range at that
    position); so the buffer after the loop is [emitted], byte for byte.
    The loop writes nothing to standard output; after the loop, and after
    the second clock reading, the buffer goes to standard output in one
    [fwrite], which is skipped when the buffer is empty. *)
Theorem output_is_original_bytes (argv : list string) (f : string)
    (json : bytes) (docs : list Document) :
  let o := parse_args (tl argv) default_options in
  output_mode o = true ->
  filename o = Some f ->
  padded_string_load f = Success json ->
  Z.of_nat (length json) < 2 ^ SIZE_WIDTH - 1 ->
  iterate_many json BATCH_SIZE = Success docs ->
  Z.of_nat (length docs) < 2 ^ SIZE_WIDTH ->
  exists (idx : list (Z * Z)) (w : world) (report : stderr_item),
    build_line_index json (Z.of_nat (length json)) = Some idx
    /\ filter_main argv initial_world = (Exit 0, w)
    /\ (forall (pre : list Document) (d : Document) (post : list Document),
          docs = pre ++ d :: post ->
          out_buf (filter_run o json idx (pre ++ [d]) initial_loop_state)
          = out_buf (filter_run o json idx pre initial_loop_state)
            ++ match nth_error idx (length pre) with
               | Some r =>
                   if doc_matches o d then slice json r ++ [newline] else []
               | None => []
               end)
    /\ out_buf (filter_run o json idx docs initial_loop_state)
       = emitted o json idx docs
    /\ trace w
       = [EvLoad f; EvNewParser; EvIterateMany json BATCH_SIZE;
          EvNow (clock_value 0)]
         ++ lookup_events (field o) docs
         ++ [EvNow (clock_value 1)]
         ++ (if is_empty_segment (emitted o json idx docs) then []
             else [EvStdout (Fwrite (emitted o json idx docs))])
         ++ [EvStderr report]
    /\ stdout_of (trace w)
       = if is_empty_segment (emitted o json idx docs) then []
         else [Fwrite (emitted o json idx docs)].
Proof.
  intros o Hmode Hf Hload Hlen Hstream Hdocs.
  set (idx := scan json 0 0 []).
  set (st := filter_run o json idx docs initial_loop_state).
  destruct (LineIndex.scan_indexed json) as [_ Hwithin _ _ _].
  fold idx in Hwithin.
  assert (Hout : forall ds : list Document,
             Z.of_nat (length ds) < 2 ^ SIZE_WIDTH ->
             out_buf (filter_run o json idx ds initial_loop_state)
             = emitted o json idx ds).
  { intros ds Hds.
    assert (Hlen' : Z.of_nat (length json) < 2 ^ SIZE_WIDTH) by lia.
    rewrite (filter_run_out_buf o json idx (Z.of_nat (length json)) ds
               Hmode Hwithin Hlen' initial_loop_state O);
      [reflexivity | reflexivity | change (Z.of_nat 0) with 0; lia]. }
  assert (Hflushed : flushed o st
            = if is_empty_segment (emitted o json idx docs) then []
              else [Fwrite (emitted o json idx docs)]).
  { unfold flushed. rewrite Hmode. unfold output_mode in Hmode.
    destruct (count_only o); [discriminate|].
    unfold st. rewrite (Hout docs Hdocs).
    destruct (is_empty_segment (emitted o json idx docs)); reflexivity. }
  exists idx, {| clock := 2; trace := filter_trace o f json docs st |},
    (filter_report o (Z.of_nat (length json)) st
       (clock_value 0) (clock_value 1)).
  split; [now apply LineIndex.build_line_index_scan|].
  split; [now apply filter_main_success|].
  split.
  { intros pre d post Hsplit.
    assert (Hlen' : Z.of_nat (length (pre ++ [d])) <= Z.of_nat (length docs)).
    { rewrite Hsplit, !length_app. cbn. lia. }
    rewrite !Hout.
    - apply emitted_snoc.
    - rewrite length_app in Hlen'. lia.
    - lia. }
  split; [now apply Hout|].
  cbn [trace]. split.
  - unfold filter_trace. rewrite Hflushed.
    destruct (is_empty_segment (emitted o json idx docs)); reflexivity.
  - now rewrite stdout_of_filter_trace.
Qed.

Lemma doc_matches_ext (o1 o2 : options) (d : Document) :
  field o1 = field o2 -> threshold o1 = threshold o2 ->
  doc_matches o1 d = doc_matches o2 d.
Proof. unfold doc_matches. now intros -> ->. Qed.

Lemma match_count_ext (o1 o2 : options) (docs : list Document) :
  field o1 = field o2 -> threshold o1 = threshold o2 ->
  match_count o1 docs = match_count o2 docs.
Proof.
  intros Hf Ht. unfold match_count. f_equal.
  apply filter_ext. intros d. now apply doc_matches_ext.
Qed.

Lemma written_bytes_flushed_output (o : options) (st : loop_state) :
  output_mode o = true -> written_bytes (flushed o st) = out_buf st.
Proof.
  intros Hmode. unfold flushed. rewrite Hmode. unfold output_mode in Hmode.
  destruct (count_only o); [discriminate|].
  destruct (out_buf st); cbn; now rewrite ?app_nil_r.
Qed.

Lemma matched_after_run (o : options) (json : bytes) (idx : list (Z * Z))
    (docs : list Document) :
  matched (filter_run o json idx docs initial_loop_state)
  = size_t_wrap (Z.of_nat (match_count o docs)).
Proof.
  destruct (filter_run_counters o json idx docs initial_loop_state)
    as (_ & _ & H); try (cbn; unfold in_size_t; cbn; lia).
  exact H.
Qed.

(** C4, as amended.  Take an invocation in which [--count] is in effect and
    one in output mode, with the same file, field and threshold, a file that
    loads and a stream that is set up.  When the stream yields no more
    documents than the buffer has non-empty lines, the integer printed by
    the first equals the number of lines the second writes to standard
    output. *)
Theorem count_equals_emitted_lines (argv_count argv_output : list string)
    (f : string) (json : bytes) (docs : list Document) :
  let oc := parse_args (tl argv_count) default_options in
  let oo := parse_args (tl argv_output) default_options in
  count_only oc = true ->
  output_mode oo = true ->
  filename oc = Some f ->
  filename oo = Some f ->
  field oc = field oo ->
  threshold oc = threshold oo ->
  padded_string_load f = Success json ->
  Z.of_nat (length json) < 2 ^ SIZE_WIDTH - 1 ->
  iterate_many json BATCH_SIZE = Success docs ->
  (length docs <= length (nonempty_segments json))%nat ->
  exists (n : Z) (wc wo : world),
    filter_main argv_count initial_world = (Exit 0, wc)
    /\ stdout_of (trace wc) = [PrintCount n]
    /\ filter_main argv_output initial_world = (Exit 0, wo)
    /\ Z.of_nat (line_count (written_bytes (stdout_of (trace wo)))) = n.
Proof.
  intros oc oo Hcount Hmode Hfc Hfo Hfield Hthr Hload Hlen Hstream Hdocs.
  set (idx := scan json 0 0 []).
  pose proof (LineIndex.scan_indexed json) as Hidx. fold idx in Hidx.
  assert (Hlidx : length idx = length (nonempty_segments json)).
  { destruct Hidx as [Hs _ _ _ _]. rewrite <- Hs. now rewrite length_map. }
  assert (Hsmall : Z.of_nat (length docs) < 2 ^ SIZE_WIDTH).
  { destruct Hidx as [_ _ _ _ Hl]. lia. }
  exists (Z.of_nat (match_count oc docs)),
    {| clock := 2;
       trace := filter_trace oc f json docs
                  (filter_run oc json idx docs initial_loop_state) |},
    {| clock := 2;
       trace := filter_trace oo f json docs
                  (filter_run oo json idx docs initial_loop_state) |}.
  split; [now apply filter_main_success|].
  split.
  { cbn [trace]. rewrite stdout_of_filter_trace. unfold flushed, output_mode.
    rewrite Hcount. cbn [negb andb app]. rewrite matched_after_run.
    rewrite Machine.size_t_wrap_small; [reflexivity|].
    pose proof (match_count_le oc docs). unfold in_size_t. lia. }
  split; [now apply filter_main_success|].
  cbn [trace]. rewrite stdout_of_filter_trace.
  rewrite written_bytes_flushed_output by assumption.
  destruct Hidx as [_ Hwithin _ _ _].
  assert (Hlen' : Z.of_nat (length json) < 2 ^ SIZE_WIDTH) by lia.
  rewrite (filter_run_out_buf oo json idx (Z.of_nat (length json)) docs
             Hmode Hwithin Hlen' initial_loop_state O);
    [| reflexivity | change (Z.of_nat 0) with 0; lia].
  cbn [out_buf initial_loop_state app skipn].
  rewrite line_count_emitted
    by (apply LineIndex.indexed_no_newline, LineIndex.scan_indexed).
  rewrite firstn_all2 by lia.
  f_equal. symmetry. now apply match_count_ext.
Qed.

(** C5.  In every mode, when the file loads and the stream is set up, the
    trace of the filter tool is: the set-up, the first clock reading, the
    streaming pass, the second clock reading, and only then what goes to
    standard output (the flushed buffer, the count) and the report.  No
    event up to the second clock reading writes to standard output, the
    streaming pass writes to no stream at all, no clock is read after the
    second reading, and the elapsed time reported is the difference of the
    two readings. *)
Theorem timed_region_has_no_output (argv : list string) (f : string)
    (json : bytes) (docs : list Document) :
  let o := parse_args (tl argv) default_options in
  filename o = Some f ->
  padded_string_load f = Success json ->
  Z.of_nat (length json) < 2 ^ SIZE_WIDTH - 1 ->
  iterate_many json BATCH_SIZE = Success docs ->
  exists (w : world) (st : loop_state),
    let timed :=
      [EvLoad f; EvNewParser; EvIterateMany json BATCH_SIZE]
      ++ [EvNow (clock_value 0)]
      ++ lookup_events (field o) docs
      ++ [EvNow (clock_value 1)] in
    let outputs :=
      map EvStdout (flushed o st)
      ++ [EvStderr (filter_report o (Z.of_nat (length json)) st
                      (clock_value 0) (clock_value 1))] in
    filter_main argv initial_world = (Exit 0, w)
    /\ trace w = timed ++ outputs
    /\ stdout_of timed = []
    /\ Forall (fun e => is_stdout e = false /\ is_stderr e = false)
         (lookup_events (field o) docs)
    /\ Forall (fun e => is_now e = false) outputs.
Proof.
  intros o Hf Hload Hlen Hstream.
  exists {| clock := 2;
            trace := filter_trace o f json docs
                       (filter_run o json (scan json 0 0 []) docs
                          initial_loop_state) |},
    (filter_run o json (scan json 0 0 []) docs initial_loop_state).
  cbv zeta.
  split; [now apply filter_main_success|].
  split; [cbn [trace]; unfold filter_trace; now rewrite <- !app_assoc|].
  split.
  { rewrite !Traces.stdout_of_app, Traces.stdout_of_lookup_events.
    reflexivity. }
  split.
  { unfold lookup_events. apply Forall_flat_map, Forall_forall.
    intros _ _. repeat constructor. }
  apply Forall_app. split; [|repeat constructor].
  apply Forall_map, Forall_forall. intros i _. reflexivity.
Qed.

(** C10.  When [--count] is in effect, with [--quiet] or without it, so in
    particular when both are given, and the file loads and the stream is set
    up, standard output receives exactly one item: the match count printed
    as an integer line.  No record bytes are written, and the count is the
    number of matching documents: [--quiet] changes nothing of it. *)
Theorem count_wins_over_quiet (argv : list string) (f : string)
    (json : bytes) (docs : list Document) :
  let o := parse_args (tl argv) default_options in
  count_only o = true ->
  filename o = Some f ->
  padded_string_load f = Success json ->
  Z.of_nat (length json) < 2 ^ SIZE_WIDTH - 1 ->
  iterate_many json BATCH_SIZE = Success docs ->
  exists w : world,
    filter_main argv initial_world = (Exit 0, w)
    /\ stdout_of (trace w)
       = [PrintCount (size_t_wrap (Z.of_nat (match_count o docs)))]
    /\ written_bytes (stdout_of (trace w)) = [].
Proof.
  intros o Hcount Hf Hload Hlen Hstream.
  exists {| clock := 2;
            trace := filter_trace o f json docs
                       (filter_run o json (scan json 0 0 []) docs
                          initial_loop_state) |}.
  split; [now apply filter_main_success|].
  cbn [trace]. rewrite stdout_of_filter_trace. unfold flushed, output_mode.
  rewrite Hcount. cbn [negb andb app]. rewrite matched_after_run.
  split; reflexivity.
Qed.

End Main.

(** The scenario of the specification: ages 25, 35 and 30 against the
    default threshold 30 write the second line and nothing else. *)
Lemma output_is_original_bytes_witness :
  exists w : world,
    filter_main (E := env_three) argv_output initial_world = (Exit 0, w)
    /\ stdout_of (trace w)
       = [Fwrite (list_byte_of_string (record "35" ++ LF))].
Proof.
  destruct (output_is_original_bytes (E := env_three) argv_output
              "data.ndjson" three_lines three_docs)
    as (idx & w & report & Hidx & Hrun & _ & _ & _ & Hout);
    try reflexivity.
  exists w. split; [exact Hrun|].
  vm_compute in Hidx. injection Hidx as <-.
  rewrite Hout. vm_compute. reflexivity.
Defined.

(** Two records on one line: both documents match in output mode, the first
    appends the whole line, and the second appends nothing, so no range at
    all accounts for what it appends. *)
Lemma output_is_original_bytes_counterexample :
  let run :=
    filter_run (E := env_two_on_a_line) output_options two_on_a_line
      [(0, 21)] in
  parse_args (E := env_two_on_a_line) (tl argv_output) default_options
  = output_options
  /\ build_line_index two_on_a_line (Z.of_nat (length two_on_a_line))
     = Some [(0, 21)]
  /\ output_mode output_options = true
  /\ Forall (fun d => doc_matches (E := env_two_on_a_line) output_options d
                      = true) two_docs
  /\ out_buf (run two_docs initial_loop_state)
     = out_buf (run (firstn 1 two_docs) initial_loop_state)
  /\ ~ (exists r : Z * Z,
          out_buf (run two_docs initial_loop_state)
          = out_buf (run (firstn 1 two_docs) initial_loop_state)
            ++ slice two_on_a_line r ++ [newline])
  /\ stdout_of (trace (snd (filter_main (E := env_two_on_a_line)
                              argv_output initial_world)))
     = [Fwrite two_on_a_line].
Proof.
  cbv zeta.
  assert (Heq : out_buf (filter_run (E := env_two_on_a_line) output_options
                           two_on_a_line [(0, 21)] two_docs
                           initial_loop_state)
                = out_buf (filter_run (E := env_two_on_a_line) output_options
                             two_on_a_line [(0, 21)] (firstn 1 two_docs)
                             initial_loop_state))
    by (vm_compute; reflexivity).
  split; [reflexivity|].
  split; [vm_compute; reflexivity|].
  split; [reflexivity|].
  split; [repeat constructor|].
  split; [exact Heq|].
  split; [|vm_compute; reflexivity].
  intros [r Hr]. rewrite Heq in Hr.
  apply (f_equal (@length byte)) in Hr.
  rewrite !length_app in Hr. cbn [length] in Hr. lia.
Qed.

Lemma count_equals_emitted_lines_witness :
  exists wc wo : world,
    filter_main (E := env_three) argv_count initial_world = (Exit 0, wc)
    /\ stdout_of (trace wc) = [PrintCount 1]
    /\ filter_main (E := env_three) argv_output initial_world = (Exit 0, wo)
    /\ line_count (written_bytes (stdout_of (trace wo))) = 1%nat.
Proof.
  destruct (count_equals_emitted_lines (E := env_three) argv_count
              argv_output "data.ndjson" three_lines three_docs)
    as (n & wc & wo & Hc & Hn & Ho & Hlines);
    try reflexivity.
  exists wc, wo.
  assert (Hw : wc = snd (filter_main (E := env_three) argv_count
                           initial_world)) by (now rewrite Hc).
  assert (H1 : n = 1).
  { rewrite Hw in Hn. vm_compute in Hn. now injection Hn as <-. }
  repeat split; try assumption.
  - now rewrite Hn, H1.
  - rewrite H1 in Hlines. lia.
Defined.

(** Two records on one line: [--count] prints 2, and the same invocation
    without it writes one line. *)
Lemma count_equals_emitted_lines_counterexample :
  stdout_of (trace (snd (filter_main (E := env_two_on_a_line)
                           argv_count initial_world)))
  = [PrintCount 2]
  /\ line_count
       (written_bytes
          (stdout_of (trace (snd (filter_main (E := env_two_on_a_line)
                                    argv_output initial_world)))))
     = 1%nat.
Proof. split; vm_compute; reflexivity. Qed.

(** The scenario of the specification again: the eleven events up to the
    second clock reading write nothing, and the line follows them. *)
Lemma timed_region_has_no_output_witness :
  exists w : world,
    filter_main (E := env_three) argv_output initial_world = (Exit 0, w)
    /\ stdout_of (firstn 11 (trace w)) = []
    /\ existsb is_now (skipn 11 (trace w)) = false
    /\ stdout_of (skipn 11 (trace w))
       = [Fwrite (list_byte_of_string (record "35" ++ LF))].
Proof.
  destruct (timed_region_has_no_output (E := env_three) argv_output
              "data.ndjson" three_lines three_docs)
    as (w & st & Hrun & _);
    try reflexivity.
  exists w.
  assert (Hw : w = snd (filter_main (E := env_three) argv_output
                          initial_world)) by (now rewrite Hrun).
  split; [exact Hrun|].
  rewrite Hw. repeat split; vm_compute; reflexivity.
Defined.

(** Both flags on the command line. *)
Lemma count_wins_over_quiet_witness :
  count_only (parse_args (E := env_three) (tl argv_count_quiet)
                default_options) = true
  /\ quiet (parse_args (E := env_three) (tl argv_count_quiet)
              default_options) = true
  /\ exists w : world,
       filter_main (E := env_three) argv_count_quiet initial_world
       = (Exit 0, w)
       /\ stdout_of (trace w) = [PrintCount 1].
Proof.
  destruct (count_wins_over_quiet (E := env_three) argv_count_quiet
              "data.ndjson" three_lines three_docs)
    as (w & Hrun & Hout & _);
    try reflexivity.
  split; [reflexivity|]. split; [reflexivity|].
  exists w. split; [exact Hrun|]. rewrite Hout. reflexivity.
Defined.

End Filter.

(** * The tokenizer tool *)

Module Tokenizer.

Section Passes.

Context {E : Env}.

Lemma warmup_loop_run (docs : list Document) :
  forall w : world,
    warmup_loop docs w
    = (tt, {| clock := clock w; trace := trace w ++ deref_events docs |}).
Proof.
  induction docs as [|d rest IH]; intros [c tr].
  - cbn. unfold ret. now rewrite app_nil_r.
  - cbn [warmup_loop]. unfold bind, emit. rewrite IH. cbn.
    now rewrite <- app_assoc.
Qed.

Lemma warm_up_run (json : bytes) (w : world) :
  warm_up json w
  = (tt, {| clock := clock w; trace := trace w ++ warmup_events json |}).
Proof.
  unfold warm_up, warmup_events, stream_docs, bind, emit.
  destruct (iterate_many json BATCH_SIZE) as [docs|e].
  - rewrite warmup_loop_run. cbn [clock trace].
    now rewrite <- !app_assoc.
  - unfold ret. cbn [clock trace deref_events map].
    now rewrite app_nil_r, <- !app_assoc.
Qed.

Lemma tokenize_loop_run (stream : list Document) :
  forall (docs : Z) (w : world),
    tokenize_loop stream docs w
    = (Nat.iter (length stream) size_incr docs,
       {| clock := clock w;
          trace := trace w ++ lookup_events SENTINEL_KEY stream |}).
Proof.
  induction stream as [|d rest IH]; intros docs [c tr].
  - cbn. unfold ret. now rewrite app_nil_r.
  - cbn [tokenize_loop]. unfold bind, emit. rewrite IH. cbn [clock trace].
    rewrite <- !app_assoc. cbn [length]. rewrite Nat.iter_succ_r.
    reflexivity.
Qed.

Lemma iter_size_incr (n : nat) :
  Nat.iter n size_incr 0 = size_t_wrap (Z.of_nat n).
Proof.
  induction n as [|n IH]; [reflexivity|].
  rewrite Nat.iter_succ, IH.
  rewrite <- (Z.add_0_l (Z.of_nat n)), Machine.size_incr_wrap.
  f_equal. lia.
Qed.

Lemma timed_pass_run (json : bytes) (w : world) :
  timed_pass json w
  = ((elapsed_at (clock w), pass_docs json),
     {| clock := S (S (clock w));
        trace := trace w ++ pass_events json (clock w) |}).
Proof.
  unfold timed_pass, pass_events, pass_docs, stream_docs, elapsed_at.
  unfold bind at 1. unfold emit at 1.
  unfold bind at 1. unfold now_secs at 1. cbn [clock trace].
  unfold bind at 1. unfold emit at 1. cbn [clock trace].
  unfold bind at 1.
  destruct (iterate_many json BATCH_SIZE) as [stream|e].
  - rewrite tokenize_loop_run, iter_size_incr.
    unfold bind, now_secs, ret. cbn [clock trace].
    rewrite <- !app_assoc. reflexivity.
  - unfold ret at 1. unfold bind, now_secs, ret. cbn [clock trace].
    rewrite <- !app_assoc. reflexivity.
Qed.

(** The state of the harness after [n] more timed iterations. *)
Lemma timed_iterations_run (json : bytes) (n : nat) :
  forall (st : bench_state) (w : world),
    exists total : Z,
      timed_iterations n json st w
      = ({| total_time :=
              fold_left double_add (map elapsed_at (clock_starts (clock w) n))
                (total_time st);
            total_docs := total;
            run_times :=
              run_times st ++ map elapsed_at (clock_starts (clock w) n) |},
         {| clock := clock w + 2 * n;
            trace := trace w
                     ++ flat_map (pass_events json)
                          (clock_starts (clock w) n) |})
      /\ total = docs_after n (pass_docs json) (total_docs st).
Proof.
  induction n as [|n IH]; intros st [c tr].
  - exists (total_docs st). split; [|reflexivity].
    cbn. unfold ret. rewrite !app_nil_r, Nat.add_0_r. now destruct st.
  - cbn [timed_iterations]. unfold bind. rewrite timed_pass_run.
    cbn [fst snd clock trace].
    match goal with
    | |- context [timed_iterations n json ?s ?v] =>
        destruct (IH s v) as (total & Hrun & Htotal)
    end.
    exists total. split; [|exact Htotal].
    rewrite Hrun. cbn [total_time run_times clock trace clock_starts map
                         fold_left flat_map].
    rewrite <- !app_assoc. cbn [app].
    replace (S (S c) + 2 * n)%nat with (c + 2 * S n)%nat by lia.
    reflexivity.
Qed.

Lemma clock_starts_length (k n : nat) : length (clock_starts k n) = n.
Proof.
  revert k. induction n as [|n IH]; intros k; cbn; [reflexivity|].
  now rewrite IH.
Qed.

(** [best_time] keeps a time that no time seen so far is below. *)
Lemma best_time_least (times : list double) :
  forall (seen : list double) (best : double),
    Forall (fun t => double_lt t best = false) seen ->
    Forall (fun t => double_lt t (best_time best times) = false)
      (seen ++ times)
    /\ (best_time best times = best \/ In (best_time best times) times).
Proof.
  unfold best_time.
  induction times as [|t rest IH]; intros seen best Hseen.
  - cbn. rewrite app_nil_r. auto.
  - cbn [fold_left].
    replace (seen ++ t :: rest) with ((seen ++ [t]) ++ rest)
      by (now rewrite <- app_assoc).
    destruct (double_lt t best) eqn:Hlt.
    + destruct (IH (seen ++ [t]) t) as [Hall Hin].
      * apply Forall_app. split.
        -- eapply Forall_impl; [|exact Hseen]. cbn beta. intros s Hs.
           destruct (double_lt s t) eqn:Hst; [|reflexivity].
           rewrite (Doubles.double_lt_trans s t best Hst Hlt) in Hs.
           discriminate.
        -- constructor; [apply Doubles.double_lt_irrefl | constructor].
      * split; [exact Hall|]. right. destruct Hin as [->|Hin].
        -- now left.
        -- now right.
    + destruct (IH (seen ++ [t]) best) as [Hall Hin].
      * apply Forall_app. split; [exact Hseen|]. now repeat constructor.
      * split; [exact Hall|]. destruct Hin as [Heq|Hin]; auto.
        right. now right.
Qed.

Lemma tokenizer_report_run (file_size iters : Z) (st : bench_state)
    (first : double) (rest : list double) (w : world) :
  run_times st = first :: rest ->
  size_t_wrap iters <> 0 ->
  let best := best_time first (run_times st) in
  let avg := double_div (total_time st) (double_of_Z iters) in
  let docs_per_iter := total_docs st / size_t_wrap iters in
  tokenizer_report file_size iters st w
  = (Exit 0,
     {| clock := clock w;
        trace := trace w
                 ++ [EvStderr
                       (TokenizerReport
                          (double_div (double_of_Z file_size) d_1e9)
                          iters docs_per_iter
                          best (gb_per_sec file_size best)
                          avg (gb_per_sec file_size avg));
                     EvStdout
                       (PrintSummary (gb_per_sec file_size best) best
                          docs_per_iter)] |}).
Proof.
  intros Htimes Hiters. cbv zeta.
  unfold tokenizer_report. rewrite Htimes.
  apply Z.eqb_neq in Hiters. rewrite Hiters.
  unfold bind, emit, ret. cbn [clock trace].
  rewrite <- app_assoc. reflexivity.
Qed.

Lemma tokenizer_report_trace (file_size iters : Z) (st : bench_state)
    (w : world) :
  exists report : list event,
    trace (snd (tokenizer_report file_size iters st w)) = trace w ++ report
    /\ clock (snd (tokenizer_report file_size iters st w)) = clock w
    /\ Forall (fun e => is_load e = false /\ is_now e = false
                        /\ (is_stdout e || is_stderr e) = true) report.
Proof.
  unfold tokenizer_report.
  destruct (run_times st) as [|first rest].
  - exists []. cbn. rewrite app_nil_r. auto.
  - destruct (size_t_wrap iters =? 0).
    + exists []. cbn. rewrite app_nil_r. auto.
    + eexists [_; _]. unfold bind, emit, ret. cbn [snd clock trace].
      rewrite <- app_assoc. split; [reflexivity|].
      split; [reflexivity|]. repeat constructor.
Qed.

(** A run of the tokenizer tool whose file loads, up to the report. *)
Lemma tokenizer_main_loaded (prog f : string) (more : list string)
    (json : bytes) :
  padded_string_load f = Success json ->
  let argv := prog :: f :: more in
  let iters := iterations argv in
  exists total : Z,
    tokenizer_main argv initial_world
    = tokenizer_report (Z.of_nat (length json)) iters
        {| total_time := fold_left double_add (recorded_times iters) d_zero;
           total_docs := total;
           run_times := recorded_times iters |}
        {| clock := 2 * Z.to_nat iters;
           trace := tokenizer_prefix f json iters |}
    /\ total = docs_after (Z.to_nat iters) (pass_docs json) 0.
Proof.
  intros Hload argv iters.
  destruct (timed_iterations_run json (Z.to_nat iters) initial_bench_state
              {| clock := O;
                 trace := [EvLoad f;
                           EvStderr
                             (FileLoaded
                                (double_div
                                   (double_of_Z (Z.of_nat (length json)))
                                   d_1e9)
                                (Z.of_nat (length json)))]
                          ++ warmup_events json
                          ++ [EvStderr (Running iters)] |})
    as (total & Hrun & Htotal).
  exists total. split; [|exact Htotal].
  unfold argv, tokenizer_main.
  change (match more with
          | [] => DEFAULT_ITERS
          | a :: _ => atoi a
          end) with iters.
  unfold bind at 1. unfold emit at 1. rewrite Hload.
  unfold bind at 1. unfold emit at 1.
  unfold bind at 1. rewrite warm_up_run.
  unfold bind at 1. unfold emit at 1.
  unfold bind at 1. cbn [clock trace initial_world app] in Hrun |- *.
  rewrite Hrun. unfold tokenizer_prefix, recorded_times.
  cbn [app total_time run_times initial_bench_state Nat.add].
  rewrite <- !app_assoc. reflexivity.
Qed.

Lemma stdout_of_passes (json : bytes) (starts : list nat) :
  stdout_of (flat_map (pass_events json) starts) = [].
Proof.
  induction starts as [|k starts IH]; [reflexivity|].
  cbn [flat_map]. rewrite Traces.stdout_of_app, IH. unfold pass_events.
  rewrite !Traces.stdout_of_app, Traces.stdout_of_lookup_events.
  reflexivity.
Qed.

Lemma stdout_of_tokenizer_prefix (f : string) (json : bytes) (iters : Z) :
  stdout_of (tokenizer_prefix f json iters) = [].
Proof.
  unfold tokenizer_prefix, warmup_events.
  rewrite !Traces.stdout_of_app, stdout_of_passes.
  rewrite Traces.stdout_of_deref_events.
  reflexivity.
Qed.

Lemma recorded_times_cons (iters : Z) :
  1 <= iters ->
  exists (first : double) (rest : list double),
    recorded_times iters = first :: rest.
Proof.
  intros Hiters. unfold recorded_times.
  destruct (Z.to_nat iters) as [|n] eqn:Hn; [lia|].
  cbn. eauto.
Qed.

(** A run of the tokenizer tool whose file loads and whose iteration count
    is a positive [int]. *)
Lemma tokenizer_main_success (prog f : string) (more : list string)
    (json : bytes) :
  padded_string_load f = Success json ->
  let argv := prog :: f :: more in
  let iters := iterations argv in
  let file_size := Z.of_nat (length json) in
  1 <= iters <= INT_MAX ->
  exists (total : Z) (first : double) (rest : list double),
    recorded_times iters = first :: rest
    /\ total = docs_after (Z.to_nat iters) (pass_docs json) 0
    /\ let best := best_time first (recorded_times iters) in
       let avg := double_div
                    (fold_left double_add (recorded_times iters) d_zero)
                    (double_of_Z iters) in
       tokenizer_main argv initial_world
       = (Exit 0,
          {| clock := 2 * Z.to_nat iters;
             trace := tokenizer_prefix f json iters
                      ++ [EvStderr
                            (TokenizerReport
                               (double_div (double_of_Z file_size) d_1e9)
                               iters (total / size_t_wrap iters)
                               best (gb_per_sec file_size best)
                               avg (gb_per_sec file_size avg));
                          EvStdout
                            (PrintSummary (gb_per_sec file_size best) best
                               (total / size_t_wrap iters))] |}).
Proof.
  intros Hload argv iters file_size Hiters.
  destruct (tokenizer_main_loaded prog f more json Hload)
    as (total & Hrun & Htotal).
  fold argv iters file_size in Hrun.
  destruct (recorded_times_cons iters) as (first & rest & Htimes); [lia|].
  exists total, first, rest. split; [exact Htimes|].
  split; [exact Htotal|]. cbv zeta.
  rewrite Hrun.
  rewrite (tokenizer_report_run file_size iters _ first rest);
    [reflexivity | exact Htimes |].
  rewrite Machine.size_t_wrap_int by assumption. lia.
Qed.

(** C7.  A run of the tokenizer tool on a command line [<file>
    [iterations]] whose file loads: the iteration count is the second
    argument when there is one and 5 otherwise; the trace starts with the
    one load of the file, followed by one warm-up pass that reads no clock,
    by the timed passes, as many as the iteration count (none when it is
    negative), and by the report.  Every timed pass constructs a parser,
    reads the clock, sets a stream up over the loaded buffer, visits its
    documents and reads the clock again; nothing but the first event loads
    a file, and no clock is read before the first timed pass. *)
Theorem tokenizer_passes (prog f : string) (more : list string)
    (json : bytes) :
  padded_string_load f = Success json ->
  let argv := prog :: f :: more in
  let iters := iterations argv in
  exists (out : outcome) (w : world) (report : list event),
    tokenizer_main argv initial_world = (out, w)
    /\ (more = [] -> iters = 5)
    /\ (forall a rest, more = a :: rest -> iters = atoi a)
    /\ trace w
       = [EvLoad f;
          EvStderr (FileLoaded
                      (double_div (double_of_Z (Z.of_nat (length json)))
                         d_1e9)
                      (Z.of_nat (length json)))]
         ++ warmup_events json
         ++ [EvStderr (Running iters)]
         ++ flat_map (pass_events json) (clock_starts 0 (Z.to_nat iters))
         ++ report
    /\ length (clock_starts 0 (Z.to_nat iters)) = Z.to_nat iters
    /\ warmup_events json
       = [EvNewParser; EvIterateMany json BATCH_SIZE]
         ++ deref_events (stream_docs json)
    /\ (forall k : nat,
          pass_events json k
          = [EvNewParser; EvNow (clock_value k);
             EvIterateMany json BATCH_SIZE]
            ++ lookup_events SENTINEL_KEY (stream_docs json)
            ++ [EvNow (clock_value (S k))])
    /\ Forall (fun e => is_load e = false /\ is_now e = false)
         (warmup_events json)
    /\ Forall (fun e => is_load e = false)
         (flat_map (pass_events json) (clock_starts 0 (Z.to_nat iters)))
    /\ Forall (fun e => is_load e = false /\ is_now e = false
                        /\ (is_stdout e || is_stderr e) = true) report.
Proof.
  intros Hload argv iters.
  destruct (tokenizer_main_loaded prog f more json Hload)
    as (total & Hrun & _).
  fold argv iters in Hrun.
  match type of Hrun with
  | _ = tokenizer_report ?s ?i ?st ?w0 =>
      destruct (tokenizer_report_trace s i st w0) as (report & Htr & _ & Hrep);
      exists (fst (tokenizer_report s i st w0)),
        (snd (tokenizer_report s i st w0)), report
  end.
  split; [rewrite Hrun; apply surjective_pairing|].
  split; [intros Hmore; unfold iters, argv; now rewrite Hmore|].
  split; [intros a rest Hmore; unfold iters, argv; now rewrite Hmore|].
  split.
  { rewrite Htr. cbn [trace]. unfold tokenizer_prefix.
    now rewrite <- !app_assoc. }
  split; [apply clock_starts_length|].
  split; [reflexivity|].
  split; [reflexivity|].
  split.
  { unfold warmup_events, deref_events.
    apply Forall_app. split; [repeat constructor|].
    apply Forall_map, Forall_forall. intros d _. split; reflexivity. }
  split; [|exact Hrep].
  apply Forall_flat_map, Forall_forall. intros k _.
  unfold pass_events, lookup_events.
  apply Forall_app. split; [repeat constructor|].
  apply Forall_app. split; [|repeat constructor].
  apply Forall_flat_map, Forall_forall. intros d _. repeat constructor.
Qed.

(** C8.  A run of the tokenizer tool whose file loads, with an iteration
    count [N] between 1 and [INT_MAX]: the best time is one of the [N]
    recorded run times and no recorded time is below it; the average is the
    sum of the recorded times, accumulated from [0.0] in the order of the
    runs, divided by [(double)N]; the throughput reported for each of the
    two is [(double)file_size / 1e9 / elapsed]; and standard output receives
    exactly one item, the summary line, made of the throughput of the best
    run, the best time and the documents per iteration. *)
Theorem tokenizer_statistics (prog f : string) (more : list string)
    (json : bytes) :
  padded_string_load f = Success json ->
  let argv := prog :: f :: more in
  let iters := iterations argv in
  let file_size := Z.of_nat (length json) in
  1 <= iters <= INT_MAX ->
  exists (w : world) (best avg : double) (docs_per_iter : Z),
    tokenizer_main argv initial_world = (Exit 0, w)
    /\ length (recorded_times iters) = Z.to_nat iters
    /\ In best (recorded_times iters)
    /\ Forall (fun t => double_lt t best = false) (recorded_times iters)
    /\ avg = double_div (fold_left double_add (recorded_times iters) d_zero)
               (double_of_Z iters)
    /\ docs_per_iter
       = docs_after (Z.to_nat iters) (pass_docs json) 0 / size_t_wrap iters
    /\ trace w
       = tokenizer_prefix f json iters
         ++ [EvStderr
               (TokenizerReport (double_div (double_of_Z file_size) d_1e9)
                  iters docs_per_iter
                  best
                  (double_div (double_div (double_of_Z file_size) d_1e9) best)
                  avg
                  (double_div (double_div (double_of_Z file_size) d_1e9) avg));
             EvStdout
               (PrintSummary
                  (double_div (double_div (double_of_Z file_size) d_1e9) best)
                  best docs_per_iter)]
    /\ stdout_of (trace w)
       = [PrintSummary
            (double_div (double_div (double_of_Z file_size) d_1e9) best)
            best docs_per_iter].
Proof.
  intros Hload argv iters file_size Hiters.
  destruct (tokenizer_main_success prog f more json Hload Hiters)
    as (total & first & rest & Htimes & Htotal & Hrun).
  fold argv iters file_size in Hrun, Htimes, Htotal. cbv zeta in Hrun.
  set (best := best_time first (recorded_times iters)) in *.
  set (avg := double_div (fold_left double_add (recorded_times iters) d_zero)
                (double_of_Z iters)) in *.
  eexists. exists best, avg, (total / size_t_wrap iters).
  split; [exact Hrun|].
  split; [unfold recorded_times; now rewrite length_map, clock_starts_length|].
  destruct (best_time_least (recorded_times iters) [] first) as [Hall Hin];
    [constructor|].
  split.
  { fold best in Hin. destruct Hin as [Heq|Hin]; [|exact Hin].
    rewrite Heq, Htimes. now left. }
  split; [exact Hall|].
  split; [reflexivity|].
  split; [now rewrite Htotal|].
  split; [reflexivity|].
  cbn [trace]. rewrite Traces.stdout_of_app, stdout_of_tokenizer_prefix.
  reflexivity.
Qed.

(** C9.  A run of the tokenizer tool whose file loads, with an iteration
    count between 1 and [INT_MAX], the default 5 included: the timed loop
    leaves as many recorded run times as the iteration count, at least one,
    so [run_times[0]] exists; the iteration count the average and the
    documents per iteration are divided by is not zero, as an [int] and as a
    [size_t]; and the run reaches nothing undefined and exits with code 0. *)
Theorem report_reads_in_bounds (prog f : string) (more : list string)
    (json : bytes) :
  padded_string_load f = Success json ->
  let argv := prog :: f :: more in
  let iters := iterations argv in
  1 <= iters <= INT_MAX ->
  (forall w0 : world,
     let st := fst (timed_iterations (Z.to_nat iters) json
                      initial_bench_state w0) in
     length (run_times st) = Z.to_nat iters
     /\ (1 <= length (run_times st))%nat
     /\ exists first : double, nth_error (run_times st) 0 = Some first)
  /\ iters <> 0
  /\ size_t_wrap iters <> 0
  /\ (more = [] -> iters = 5)
  /\ exists w : world, tokenizer_main argv initial_world = (Exit 0, w).
Proof.
  intros Hload argv iters Hiters.
  split.
  { intros w0.
    destruct (timed_iterations_run json (Z.to_nat iters)
                initial_bench_state w0) as (total & Hrun & _).
    rewrite Hrun. cbn [fst run_times initial_bench_state app].
    rewrite length_map, clock_starts_length.
    split; [reflexivity|]. split; [lia|].
    destruct (Z.to_nat iters) as [|n] eqn:Hn; [lia|].
    cbn. eauto. }
  split; [lia|].
  split; [rewrite Machine.size_t_wrap_int by assumption; lia|].
  split; [intros Hmore; unfold iters, argv; now rewrite Hmore|].
  destruct (tokenizer_main_success prog f more json Hload Hiters)
    as (total & first & rest & _ & _ & Hrun).
  eexists. exact Hrun.
Qed.

End Passes.

(** The default command line: one load, one warm-up, five timed passes and
    so ten clock readings. *)
Lemma tokenizer_passes_witness :
  exists (out : outcome) (w : world),
    tokenizer_main (E := env_three) argv_default initial_world = (out, w)
    /\ length (filter is_load (trace w)) = 1%nat
    /\ length (filter is_now (trace w)) = 10%nat.
Proof.
  destruct (tokenizer_passes (E := env_three) "tokenizer_bench"
              "data.ndjson" [] three_lines eq_refl)
    as (out & w & report & Hrun & _).
  exists out, w. split; [exact Hrun|].
  assert (Hw : w = snd (tokenizer_main (E := env_three) argv_default
                          initial_world)).
  { unfold argv_default. now rewrite Hrun. }
  rewrite Hw. split; vm_compute; reflexivity.
Defined.

(** Three iterations that take 5, 2 and 9 seconds: the best time is 2
    seconds. *)
Lemma tokenizer_statistics_witness :
  exists (w : world) (gb : double) (docs : Z),
    tokenizer_main (E := env_three_timed) argv_three_iterations initial_world
    = (Exit 0, w)
    /\ stdout_of (trace w) = [PrintSummary gb (double_of_Z 2) docs].
Proof.
  assert (Hiters : 1 <= iterations (E := env_three_timed)
                          argv_three_iterations <= INT_MAX)
    by (vm_compute; split; discriminate).
  destruct (tokenizer_statistics (E := env_three_timed) "tokenizer_bench"
              "data.ndjson" ["3"%string] three_lines eq_refl Hiters)
    as (w & best & avg & docs & Hrun & _).
  assert (Hw : w = snd (tokenizer_main (E := env_three_timed)
                          argv_three_iterations initial_world)).
  { unfold argv_three_iterations. now rewrite Hrun. }
  exists w. rewrite Hw. vm_compute. eexists. eexists.
  split; reflexivity.
Defined.

Lemma report_reads_in_bounds_witness :
  exists w : world,
    tokenizer_main (E := env_three) argv_default initial_world = (Exit 0, w).
Proof.
  assert (Hiters : 1 <= iterations (E := env_three) argv_default <= INT_MAX)
    by (vm_compute; split; discriminate).
  destruct (report_reads_in_bounds (E := env_three) "tokenizer_bench"
              "data.ndjson" [] three_lines eq_refl Hiters)
    as (_ & _ & _ & _ & w & Hrun).
  exists w. exact Hrun.
Defined.

End Tokenizer.

(** * Exit codes *)

Section ExitCodes.

Context {E : Env}.

Lemma stderr_only_fails (code_trace : list event) (m : stderr_item) :
  Forall (fun e => is_now e = false /\ is_stdout e = false) code_trace ->
  fails_with_diagnostic
    (Exit 1, {| clock := O; trace := code_trace ++ [EvStderr m] |}).
Proof.
  intros Hpre. unfold fails_with_diagnostic. cbn [fst snd clock trace].
  repeat split.
  - apply Forall_app. split; [exact Hpre | repeat constructor].
  - eauto.
Qed.

Lemma filter_main_failure (argv : list string) (fl : failure) :
  (forall f json, padded_string_load f = Success json ->
                  Z.of_nat (length json) < 2 ^ SIZE_WIDTH - 1) ->
  filter_failure argv = Some fl ->
  fails_with_diagnostic (filter_main argv initial_world).
Proof.
  intros Hsize. unfold filter_failure, filter_main.
  destruct (filename (parse_args (tl argv) default_options)) as [f|].
  - unfold bind at 1. unfold emit at 1.
    destruct (padded_string_load f) as [json|e] eqn:Hload.
    + rewrite (LineIndex.build_line_index_scan json (Hsize f json Hload)).
      unfold bind at 1 2. unfold emit at 1 2.
      destruct (iterate_many json BATCH_SIZE) as [docs|e]; [discriminate|].
      intros _. unfold bind, emit, ret. cbn [clock trace initial_world app].
      apply (stderr_only_fails
               [EvLoad f; EvNewParser; EvIterateMany json BATCH_SIZE]).
      repeat constructor.
    + intros _. unfold bind, emit, ret. cbn [clock trace initial_world app].
      apply (stderr_only_fails [EvLoad f]). repeat constructor.
  - intros _. unfold bind, emit, ret. cbn [clock trace initial_world app].
    apply (stderr_only_fails []). constructor.
Qed.

Lemma filter_main_no_failure (argv : list string) :
  (forall f json, padded_string_load f = Success json ->
                  Z.of_nat (length json) < 2 ^ SIZE_WIDTH - 1) ->
  filter_failure argv = None ->
  fst (filter_main argv initial_world) = Exit 0.
Proof.
  intros Hsize. unfold filter_failure.
  destruct (filename (parse_args (tl argv) default_options)) as [f|] eqn:Hf;
    [|discriminate].
  destruct (padded_string_load f) as [json|e] eqn:Hload; [|discriminate].
  destruct (iterate_many json BATCH_SIZE) as [docs|e] eqn:Hstream;
    [|discriminate].
  intros _.
  now rewrite (Filter.filter_main_success argv f json docs Hf Hload
                 (Hsize f json Hload) Hstream).
Qed.

Lemma tokenizer_main_failure (argv : list string) (fl : failure) :
  tokenizer_failure argv = Some fl ->
  fails_with_diagnostic (tokenizer_main argv initial_world).
Proof.
  unfold tokenizer_failure, tokenizer_main.
  destruct argv as [|prog [|f more]].
  - intros _. unfold bind, emit, ret. cbn [clock trace initial_world app].
    apply (stderr_only_fails []). constructor.
  - intros _. unfold bind, emit, ret. cbn [clock trace initial_world app].
    apply (stderr_only_fails []). constructor.
  - destruct (padded_string_load f) as [json|e]; [discriminate|].
    intros _. unfold bind, emit, ret. cbn [clock trace initial_world app].
    apply (stderr_only_fails [EvLoad f]). repeat constructor.
Qed.

Lemma tokenizer_main_no_failure (argv : list string) :
  1 <= iterations argv <= INT_MAX ->
  tokenizer_failure argv = None ->
  fst (tokenizer_main argv initial_world) = Exit 0.
Proof.
  intros Hiters. unfold tokenizer_failure.
  destruct argv as [|prog [|f more]]; try discriminate.
  destruct (padded_string_load f) as [json|e] eqn:Hload; [|discriminate].
  intros _.
  destruct (Tokenizer.tokenizer_main_success prog f more json Hload Hiters)
    as (total & first & rest & _ & _ & Hrun).
  cbv zeta in Hrun. now rewrite Hrun.
Qed.

(** C6, as amended.  Files that load fit the address space, and the
    iteration count of the tokenizer command line is between 1 and
    [INT_MAX].  The filter tool ends with exit code 1 in exactly three
    cases: no filename on the command line, a file that cannot be loaded,
    a document stream that cannot be set up over the loaded buffer; in
    every other case it ends with exit code 0.  The tokenizer tool ends
    with exit code 1 in exactly two cases: no filename argument, a file
    that cannot be loaded; in every other case, a stream that cannot be set
    up included, it ends with exit code 0.  A run that ends with exit code
    1 has written a diagnostic to standard error as its last event, has
    read no clock and has written nothing to standard output. *)
Theorem exit_codes (argv_filter argv_tokenizer : list string) :
  (forall f json, padded_string_load f = Success json ->
                  Z.of_nat (length json) < 2 ^ SIZE_WIDTH - 1) ->
  1 <= iterations argv_tokenizer <= INT_MAX ->
  match filter_failure argv_filter with
  | Some _ => fails_with_diagnostic (filter_main argv_filter initial_world)
  | None => fst (filter_main argv_filter initial_world) = Exit 0
  end
  /\ match tokenizer_failure argv_tokenizer with
     | Some _ =>
         fails_with_diagnostic (tokenizer_main argv_tokenizer initial_world)
     | None => fst (tokenizer_main argv_tokenizer initial_world) = Exit 0
     end
  /\ (forall prog f more json e,
        argv_tokenizer = prog :: f :: more ->
        padded_string_load f = Success json ->
        iterate_many json BATCH_SIZE = Failure e ->
        fst (tokenizer_main argv_tokenizer initial_world) = Exit 0).
Proof.
  intros Hsize Hiters. split.
  - destruct (filter_failure argv_filter) as [fl|] eqn:Hfl.
    + now apply (filter_main_failure argv_filter fl).
    + now apply filter_main_no_failure.
  - split.
    + destruct (tokenizer_failure argv_tokenizer) as [fl|] eqn:Hfl.
      * now apply (tokenizer_main_failure argv_tokenizer fl).
      * now apply tokenizer_main_no_failure.
    + intros prog f more json e Hargv Hload _.
      apply tokenizer_main_no_failure; [exact Hiters|].
      rewrite Hargv. unfold tokenizer_failure. now rewrite Hload.
Qed.

End ExitCodes.

(** Both tools on a file that loads, with a stream that is set up. *)
Lemma exit_codes_witness :
  fst (filter_main (E := env_three) argv_output initial_world) = Exit 0
  /\ fst (tokenizer_main (E := env_three) argv_default initial_world)
     = Exit 0.
Proof.
  assert (Hsize : forall f json,
             padded_string_load (Env := env_three) f = Success json ->
             Z.of_nat (length json) < 2 ^ SIZE_WIDTH - 1).
  { intros f json H. injection H as <-. vm_compute. reflexivity. }
  assert (Hiters : 1 <= iterations (E := env_three) argv_default <= INT_MAX)
    by (vm_compute; split; discriminate).
  destruct (exit_codes (E := env_three) argv_output argv_default
              Hsize Hiters) as (Hfilter & Htokenizer & _).
  change (filter_failure (E := env_three) argv_output)
    with (@None failure) in Hfilter.
  change (tokenizer_failure (E := env_three) argv_default)
    with (@None failure) in Htokenizer.
  split; assumption.
Defined.

(** The tokenizer tool on a file that loads and a stream that cannot be
    set up over it: no timed pass sees a document, and the run ends with
    exit code 0.  With an iteration count of 0 the file loads, the stream
    is set up, and the report reads [run_times[0]] of an empty vector. *)
Lemma exit_codes_counterexample :
  padded_string_load (Env := env_no_stream) "data.ndjson"
  = Success three_lines
  /\ iterate_many (Env := env_no_stream) three_lines BATCH_SIZE
     = Failure 1%positive
  /\ fst (tokenizer_main (E := env_no_stream) argv_default initial_world)
     = Exit 0
  /\ fst (tokenizer_main (E := env_no_stream) argv_default initial_world)
     <> Exit 1
  /\ fst (tokenizer_main (E := env_zero_iterations) argv_zero_iterations
            initial_world)
     = Undefined.
Proof.
  split; [reflexivity|].
  split; [reflexivity|].
  split; [vm_compute; reflexivity|].
  split; [vm_compute; discriminate|].
  vm_compute. reflexivity.
Qed.

(** * Further properties of the line index *)

Module LineIndexFacts.

Lemma scan_trailing_newline (suf : bytes) :
  forall (i s : Z) (idx : list (Z * Z)),
    scan (suf ++ [newline]) i s idx = scan suf i s idx.
Proof.
  induction suf as [|c rest IH]; intros i s idx.
  - cbn. unfold emplace_line at 1.
    now rewrite Z.ltb_irrefl.
  - cbn [app scan]. now rewrite !IH.
Qed.

(** X1.  A newline byte added at the end of a buffer leaves its index as it is:
    a last line is indexed the same with and without its terminator. *)
Theorem trailing_newline_same_index (data : bytes) :
  Z.of_nat (length (data ++ [newline])) < 2 ^ SIZE_WIDTH - 1 ->
  build_line_index (data ++ [newline])
    (Z.of_nat (length (data ++ [newline])))
  = build_line_index data (Z.of_nat (length data)).
Proof.
  intros Hlen.
  rewrite (LineIndex.build_line_index_scan _ Hlen).
  rewrite LineIndex.build_line_index_scan.
  - now rewrite scan_trailing_newline.
  - rewrite length_app in Hlen. cbn [length] in Hlen. lia.
Qed.

Lemma trailing_newline_same_index_witness :
  build_line_index (ragged_lines ++ [newline])
    (Z.of_nat (length (ragged_lines ++ [newline])))
  = build_line_index ragged_lines (Z.of_nat (length ragged_lines)).
Proof.
  apply (trailing_newline_same_index ragged_lines).
  vm_compute. reflexivity.
Defined.

Lemma emplace_line_in_range (s i p : Z) :
  Exists (in_range p) (emplace_line [] s i) <-> s <= p < i.
Proof.
  unfold emplace_line. destruct (Z.ltb_spec s i) as [Hlt|Hge]; cbn [app].
  - rewrite Exists_cons, Exists_nil. unfold in_range. cbn [fst snd]. tauto.
  - rewrite Exists_nil. lia.
Qed.

Lemma scan_positions (data suf : bytes) :
  forall pre cur : bytes,
    data = pre ++ cur ++ suf ->
    (forall p, Z.of_nat (length pre) <= p < Z.of_nat (length (pre ++ cur)) ->
               is_newline (byte_at data p) = false) ->
    forall p,
      Z.of_nat (length pre) <= p < Z.of_nat (length data) ->
      (is_newline (byte_at data p) = false
       <-> Exists (in_range p)
             (scan suf (Z.of_nat (length (pre ++ cur)))
                (Z.of_nat (length pre)) [])).
Proof.
  induction suf as [|c rest IH]; intros pre cur Hdata Hcur p Hp.
  - cbn [scan]. rewrite emplace_line_in_range.
    assert (Hlen : length data = length (pre ++ cur))
      by (now rewrite Hdata, app_nil_r).
    rewrite Hlen in Hp. split; [intros _; exact Hp | intros _; now apply Hcur].
  - cbn [scan].
    assert (Hc : byte_at data (Z.of_nat (length (pre ++ cur))) = c).
    { rewrite Hdata, app_assoc. apply LineIndex.byte_at_app. }
    assert (Hnext : Z.of_nat (length (pre ++ cur)) + 1
                    = Z.of_nat (length (pre ++ cur ++ [c]))).
    { rewrite !length_app. simpl. lia. }
    assert (Hle : Z.of_nat (length pre) <= Z.of_nat (length (pre ++ cur))).
    { rewrite length_app. lia. }
    destruct (is_newline c) eqn:Hnl.
    + rewrite LineIndex.scan_acc, Exists_app, emplace_line_in_range.
      destruct (Z.lt_trichotomy p (Z.of_nat (length (pre ++ cur))))
        as [Hlt|[Heq|Hgt]].
      * split; [intros _; left; lia | intros _; apply Hcur; lia].
      * subst p. rewrite Hc, Hnl. split; [discriminate|].
        intros [Hin|Hin]; [lia|].
        destruct (LineIndex.scan_ranges rest
                    (Z.of_nat (length (pre ++ cur)) + 1)
                    (Z.of_nat (length (pre ++ cur)) + 1)) as [Hall _];
          [lia|].
        rewrite Exists_exists in Hin. destruct Hin as (r & Hr & Hpr).
        rewrite Forall_forall in Hall. specialize (Hall r Hr).
        unfold in_range in Hpr. lia.
      * specialize (IH (pre ++ cur ++ [c]) []).
        rewrite app_nil_r in IH. rewrite Hnext.
        rewrite (IH ltac:(rewrite Hdata; now rewrite <- ?app_assoc)
                    ltac:(intros q Hq; lia) p ltac:(lia)).
        split; [intros H; now right | intros [H|H]; [lia | exact H]].
    + rewrite Hnext.
      specialize (IH pre (cur ++ [c])).
      rewrite <- app_assoc in IH.
      apply IH; [rewrite Hdata; now rewrite <- ?app_assoc | | exact Hp].
      intros q Hq. rewrite <- Hnext in Hq.
      destruct (Z.eq_dec q (Z.of_nat (length (pre ++ cur)))) as [->|Hne].
      * now rewrite Hc.
      * apply Hcur. lia.
Qed.

(** X2.  The ranges of the index are exactly the bytes that are not newlines: a
    byte of the buffer lies in a range if and only if it is not a newline
    byte. *)
Theorem index_covers_the_lines (data : bytes) :
  Z.of_nat (length data) < 2 ^ SIZE_WIDTH - 1 ->
  exists idx : list (Z * Z),
    build_line_index data (Z.of_nat (length data)) = Some idx
    /\ forall p : Z,
         0 <= p < Z.of_nat (length data) ->
         (is_newline (byte_at data p) = false <-> Exists (in_range p) idx).
Proof.
  intros Hlen. exists (scan data 0 0 []).
  split; [now apply LineIndex.build_line_index_scan|].
  intros p Hp.
  apply (scan_positions data data [] [] eq_refl); [|exact Hp].
  cbn. intros q Hq. lia.
Qed.

Lemma index_covers_the_lines_witness :
  exists idx : list (Z * Z),
    build_line_index ragged_lines (Z.of_nat (length ragged_lines)) = Some idx
    /\ (is_newline (byte_at ragged_lines 11) = false
        <-> Exists (in_range 11) idx).
Proof.
  destruct (index_covers_the_lines ragged_lines) as (idx & Hidx & Hcover);
    [vm_compute; reflexivity|].
  exists idx. split; [exact Hidx|].
  apply Hcover. vm_compute. split; [discriminate | reflexivity].
Defined.

Lemma scan_count (suf : bytes) :
  forall i s : Z,
    s <= i ->
    2 * Z.of_nat (length (scan suf i s []))
    <= Z.of_nat (length suf) + (if s <? i then 2 else 1).
Proof.
  induction suf as [|c rest IH]; intros i s Hs.
  - cbn [scan]. unfold emplace_line.
    destruct (s <? i); cbn; lia.
  - cbn [scan].
    destruct (is_newline c).
    + rewrite LineIndex.scan_acc, length_app.
      specialize (IH (i + 1) (i + 1) ltac:(lia)).
      rewrite Z.ltb_irrefl in IH.
      unfold emplace_line. destruct (s <? i); cbn [length app] in *; lia.
    + specialize (IH (i + 1) s ltac:(lia)).
      replace (s <? i + 1) with true in IH
        by (symmetry; apply Z.ltb_lt; lia).
      destruct (s <? i); cbn [length] in *; lia.
Qed.

(** X3.  A buffer of [L] bytes has at most [(L + 1) / 2] indexed lines: every
    line takes a byte, and a newline byte separates it from the next. *)
Theorem index_has_at_most_half_the_bytes (data : bytes) :
  Z.of_nat (length data) < 2 ^ SIZE_WIDTH - 1 ->
  exists idx : list (Z * Z),
    build_line_index data (Z.of_nat (length data)) = Some idx
    /\ 2 * Z.of_nat (length idx) <= Z.of_nat (length data) + 1.
Proof.
  intros Hlen. exists (scan data 0 0 []).
  split; [now apply LineIndex.build_line_index_scan|].
  pose proof (scan_count data 0 0 ltac:(lia)) as H.
  now rewrite Z.ltb_irrefl in H.
Qed.

Lemma index_has_at_most_half_the_bytes_witness :
  exists idx : list (Z * Z),
    build_line_index ragged_lines (Z.of_nat (length ragged_lines)) = Some idx
    /\ 2 * Z.of_nat (length idx) <= Z.of_nat (length ragged_lines) + 1.
Proof.
  apply (index_has_at_most_half_the_bytes ragged_lines).
  vm_compute. reflexivity.
Defined.

Lemma segments_line (l rest : bytes) :
  no_newline l -> segments (l ++ newline :: rest) = l :: segments rest.
Proof.
  induction 1 as [|c l Hc _ IH].
  - reflexivity.
  - cbn [app]. rewrite LineIndex.segments_cons, Hc, IH. reflexivity.
Qed.

Lemma segments_join (lines : list bytes) :
  Forall no_newline lines -> segments (join_lines lines) = lines ++ [[]].
Proof.
  unfold join_lines. induction 1 as [|l lines Hl _ IH]; [reflexivity|].
  cbn [flat_map app]. rewrite <- app_assoc. cbn [app].
  now rewrite segments_line, IH.
Qed.

Lemma nonempty_segments_join (lines : list bytes) :
  Forall proper_line lines -> nonempty_segments (join_lines lines) = lines.
Proof.
  intros Hlines. unfold nonempty_segments.
  rewrite segments_join
    by (eapply Forall_impl; [|exact Hlines]; now intros l [_ H]).
  rewrite filter_app. cbn [filter is_empty_segment negb]. rewrite app_nil_r.
  induction Hlines as [|l lines [Hne _] _ IH]; [reflexivity|].
  cbn [filter]. destruct l; [congruence|]. cbn. now rewrite IH.
Qed.

(** X4.  Round trip.  Lines that are not empty and hold no newline byte, written
    one after the other with a newline after each, are indexed back: the
    byte spans of the ranges are the lines, one range per line, in order. *)
Theorem index_of_joined_lines (lines : list bytes) :
  Forall proper_line lines ->
  Z.of_nat (length (join_lines lines)) < 2 ^ SIZE_WIDTH - 1 ->
  exists idx : list (Z * Z),
    build_line_index (join_lines lines)
      (Z.of_nat (length (join_lines lines))) = Some idx
    /\ map (slice (join_lines lines)) idx = lines
    /\ length idx = length lines.
Proof.
  intros Hlines Hlen. exists (scan (join_lines lines) 0 0 []).
  destruct (LineIndex.scan_indexed (join_lines lines)) as [Hs _ _ _ _].
  rewrite nonempty_segments_join in Hs by assumption.
  split; [now apply LineIndex.build_line_index_scan|].
  split; [exact Hs|].
  rewrite <- Hs at 2. now rewrite length_map.
Qed.

Lemma index_of_joined_lines_witness :
  exists idx : list (Z * Z),
    build_line_index (join_lines [[x61; x62]; [x63]])
      (Z.of_nat (length (join_lines [[x61; x62]; [x63]]))) = Some idx
    /\ map (slice (join_lines [[x61; x62]; [x63]])) idx
       = [[x61; x62]; [x63]].
Proof.
  destruct (index_of_joined_lines [[x61; x62]; [x63]])
    as (idx & Hidx & Hs & _).
  - repeat constructor; discriminate.
  - vm_compute. reflexivity.
  - exists idx. split; assumption.
Defined.

End LineIndexFacts.

(** * The argument loop *)

Module CommandLine.

Section Parser.

Context {E : Env}.

Lemma starts_with_dash_flag (a : string) :
  starts_with_dash a = false ->
  a <> "--count"%string /\ a <> "--quiet"%string
  /\ a <> "--field"%string /\ a <> "--gt"%string.
Proof.
  intros H. repeat split; intros ->; discriminate H.
Qed.

(** The argument loop by cases: what the loop does with the first
    argument, and what is left for it to parse. *)
Lemma parse_args_cases (P : list string -> options -> options -> Prop) :
  (forall o, P [] o o) ->
  (forall rest o r,
     P rest (set_count o) r -> P ("--count"%string :: rest) o r) ->
  (forall rest o r,
     P rest (set_quiet o) r -> P ("--quiet"%string :: rest) o r) ->
  (forall v rest o r,
     P rest (set_field v o) r -> P ("--field"%string :: v :: rest) o r) ->
  (forall v rest o r,
     P rest (set_threshold (atof v) o) r ->
     P ("--gt"%string :: v :: rest) o r) ->
  (forall a rest o r,
     positional a rest -> starts_with_dash a = false ->
     P rest (set_filename a o) r -> P (a :: rest) o r) ->
  (forall a rest o r,
     positional a rest -> starts_with_dash a = true ->
     P rest o r -> P (a :: rest) o r) ->
  forall args o, P args o (parse_args args o).
Proof.
  intros Hnil Hcount Hquiet Hfield Hgt Hfile Hskip args.
  assert (Hall : forall n args, (length args <= n)%nat ->
                   forall o, P args o (parse_args args o)).
  { clear args. induction n as [|n IH]; intros [|a rest] Hlen o;
      cbn [length] in Hlen; try lia; try apply Hnil.
    cbn [parse_args].
    destruct (String.eqb_spec a "--count") as [->|Hnc].
    { apply Hcount, IH. lia. }
    destruct (String.eqb_spec a "--quiet") as [->|Hnq].
    { apply Hquiet, IH. lia. }
    assert (Hlast : forall o',
               (a = "--field"%string -> rest = []) ->
               (a = "--gt"%string -> rest = []) ->
               P (a :: rest) o'
                 (if negb (Ascii.eqb (first_char a) "-")
                  then parse_args rest (set_filename a o')
                  else parse_args rest o')).
    { intros o' Hf Hg.
      assert (Hpos : positional a rest) by (repeat split; assumption).
      destruct (Ascii.eqb (first_char a) "-") eqn:Hdash; cbn [negb].
      - apply Hskip; auto. apply IH. lia.
      - apply Hfile; auto. apply IH. lia. }
    destruct (String.eqb_spec a "--field") as [->|Hnf].
    - destruct rest as [|v rest'].
      + cbn. apply (Hlast o); [reflexivity | discriminate].
      + apply Hfield, IH. cbn [length] in Hlen. lia.
    - destruct (String.eqb_spec a "--gt") as [->|Hng].
      + destruct rest as [|v rest'].
        * apply (Hlast o); [discriminate | reflexivity].
        * apply Hgt, IH. cbn [length] in Hlen. lia.
      + apply (Hlast o); intros; congruence. }
  intros o. now apply (Hall (length args)).
Qed.

(** What the loop leaves alone: an option whose flag is not on the command
    line, and the filename when every argument starts with a dash. *)
Lemma parse_args_unchanged (args : list string) (o : options) :
  (~ In "--field"%string args -> field (parse_args args o) = field o)
  /\ (~ In "--gt"%string args ->
      threshold (parse_args args o) = threshold o)
  /\ (~ In "--count"%string args ->
      count_only (parse_args args o) = count_only o)
  /\ (~ In "--quiet"%string args -> quiet (parse_args args o) = quiet o)
  /\ (Forall (fun a => starts_with_dash a = true) args ->
      filename (parse_args args o) = filename o).
Proof.
  apply (parse_args_cases
           (fun args o r =>
              (~ In "--field"%string args -> field r = field o)
              /\ (~ In "--gt"%string args -> threshold r = threshold o)
              /\ (~ In "--count"%string args -> count_only r = count_only o)
              /\ (~ In "--quiet"%string args -> quiet r = quiet o)
              /\ (Forall (fun a => starts_with_dash a = true) args ->
                  filename r = filename o)));
    clear args o.
  - intros o. repeat split; reflexivity.
  - intros rest o r (Hf & Hg & Hc & Hq & Hn).
    repeat split; intros H; cbn [In] in H.
    + apply Hf. tauto.
    + apply Hg. tauto.
    + tauto.
    + apply Hq. tauto.
    + apply Hn. now inversion H.
  - intros rest o r (Hf & Hg & Hc & Hq & Hn).
    repeat split; intros H; cbn [In] in H.
    + apply Hf. tauto.
    + apply Hg. tauto.
    + apply Hc. tauto.
    + tauto.
    + apply Hn. now inversion H.
  - intros v rest o r (Hf & Hg & Hc & Hq & Hn).
    repeat split; intros H; cbn [In] in H.
    + tauto.
    + apply Hg. tauto.
    + apply Hc. tauto.
    + apply Hq. tauto.
    + apply Hn. inversion H as [|? ? _ H']. now inversion H'.
  - intros v rest o r (Hf & Hg & Hc & Hq & Hn).
    repeat split; intros H; cbn [In] in H.
    + apply Hf. tauto.
    + tauto.
    + apply Hc. tauto.
    + apply Hq. tauto.
    + apply Hn. inversion H as [|? ? _ H']. now inversion H'.
  - intros a rest o r _ Hdash (Hf & Hg & Hc & Hq & Hn).
    repeat split; intros H; cbn [In] in H.
    + apply Hf. tauto.
    + apply Hg. tauto.
    + apply Hc. tauto.
    + apply Hq. tauto.
    + inversion H as [|? ? Ha _]. congruence.
  - intros a rest o r _ Hdash (Hf & Hg & Hc & Hq & Hn).
    repeat split; intros H; cbn [In] in H.
    + apply Hf. tauto.
    + apply Hg. tauto.
    + apply Hc. tauto.
    + apply Hq. tauto.
    + apply Hn. now inversion H.
Qed.

(** What the loop never undoes: a flag that is set stays set, and a
    filename that is found stays found. *)
Lemma parse_args_sticky (args : list string) (o : options) :
  (count_only o = true -> count_only (parse_args args o) = true)
  /\ (quiet o = true -> quiet (parse_args args o) = true)
  /\ (filename o <> None -> filename (parse_args args o) <> None).
Proof.
  apply (parse_args_cases
           (fun _ o r =>
              (count_only o = true -> count_only r = true)
              /\ (quiet o = true -> quiet r = true)
              /\ (filename o <> None -> filename r <> None)));
    clear args o; try (intros o; tauto);
    intros; cbn in *; intuition (auto; discriminate).
Qed.

(** X5.  The defaults of the filter tool: without [--field] on the command line
    the field is [age], without [--gt] the threshold is 30, without
    [--count] and without [--quiet] the two flags are off. *)
Theorem options_keep_their_defaults (argv : list string) :
  let o := parse_args (tl argv) default_options in
  (~ In "--field"%string (tl argv) -> field o = "age"%string)
  /\ (~ In "--gt"%string (tl argv) -> threshold o = d_30)
  /\ (~ In "--count"%string (tl argv) -> count_only o = false)
  /\ (~ In "--quiet"%string (tl argv) -> quiet o = false).
Proof.
  destruct (parse_args_unchanged (tl argv) default_options)
    as (Hf & Hg & Hc & Hq & _).
  cbv zeta. repeat split; auto.
Qed.

(** X6.  A flag or a filename that comes first on the command line is in effect
    whatever follows it: a leading [--count] sets count mode, a leading
    [--quiet] sets quiet mode, and a leading argument that does not start
    with a dash gives the run a filename. *)
Theorem leading_argument_takes_effect (a : string) (rest : list string)
    (o : options) :
  count_only (parse_args ("--count"%string :: rest) o) = true
  /\ quiet (parse_args ("--quiet"%string :: rest) o) = true
  /\ (starts_with_dash a = false ->
      filename (parse_args (a :: rest) o) <> None).
Proof.
  split; [|split].
  - change (parse_args ("--count"%string :: rest) o)
      with (parse_args rest (set_count o)).
    now apply parse_args_sticky.
  - change (parse_args ("--quiet"%string :: rest) o)
      with (parse_args rest (set_quiet o)).
    now apply parse_args_sticky.
  - intros Hdash.
    destruct (starts_with_dash_flag a Hdash) as (Hc & Hq & Hf & Hg).
    assert (Heq : parse_args (a :: rest) o
                  = parse_args rest (set_filename a o)).
    { cbn [parse_args].
      apply String.eqb_neq in Hc, Hq, Hf, Hg. rewrite Hc, Hq, Hf, Hg.
      unfold starts_with_dash in Hdash. now rewrite Hdash. }
    rewrite Heq. apply parse_args_sticky. discriminate.
Qed.

(** X7.  A command line on which every argument starts with a dash names no
    file: the filter tool writes its usage message to standard error and
    returns 1, and it loads nothing. *)
Theorem options_only_is_a_usage_error (argv : list string) :
  Forall (fun a => starts_with_dash a = true) (tl argv) ->
  filter_main argv initial_world
  = (Exit 1, {| clock := O; trace := [EvStderr FilterUsage] |}).
Proof.
  intros Hdash.
  destruct (parse_args_unchanged (tl argv) default_options)
    as (_ & _ & _ & _ & Hn).
  unfold filter_main. rewrite (Hn Hdash). reflexivity.
Qed.

End Parser.

Lemma options_keep_their_defaults_witness :
  field (parse_args (E := env_three) (tl argv_count) default_options)
  = "age"%string
  /\ threshold (parse_args (E := env_three) (tl argv_count) default_options)
     = d_30.
Proof.
  destruct (options_keep_their_defaults (E := env_three) argv_count)
    as (Hf & Hg & _).
  split; [apply Hf | apply Hg]; cbn; intuition discriminate.
Defined.

Lemma leading_argument_takes_effect_witness :
  filename (parse_args (E := env_three) (tl argv_count) default_options)
  <> None.
Proof.
  apply (leading_argument_takes_effect (E := env_three) "data.ndjson"
           ["--count"%string] default_options).
  reflexivity.
Defined.

Lemma options_only_is_a_usage_error_witness :
  fst (filter_main (E := env_three) argv_options_only initial_world)
  = Exit 1.
Proof.
  rewrite (options_only_is_a_usage_error (E := env_three) argv_options_only).
  - reflexivity.
  - repeat constructor.
Defined.

End CommandLine.

(** * Further properties of the filter tool *)

Module FilterFacts.

Section Runs.

Context {E : Env}.

(** A run of the filter tool in which the file loads, the index is built
    and the stream is set up. *)
Lemma filter_main_indexed (argv : list string) (f : string) (json : bytes)
    (idx : list (Z * Z)) (docs : list Document) :
  let o := parse_args (tl argv) default_options in
  filename o = Some f ->
  padded_string_load f = Success json ->
  build_line_index json (Z.of_nat (length json)) = Some idx ->
  iterate_many json BATCH_SIZE = Success docs ->
  filter_main argv initial_world
  = (Exit 0,
     {| clock := 2;
        trace := filter_trace o f json docs
                   (filter_run o json idx docs initial_loop_state) |}).
Proof.
  intros o Hf Hload Hidx Hstream.
  unfold filter_main. fold o. rewrite Hf.
  unfold bind at 1. unfold emit at 1. rewrite Hload, Hidx.
  unfold bind at 1 2. unfold emit at 1 2. rewrite Hstream.
  unfold bind at 1. unfold now_secs at 1.
  unfold bind at 1. rewrite Filter.filter_loop_run.
  unfold bind at 1. unfold now_secs at 1.
  unfold bind at 1. rewrite Filter.flush_output_run.
  unfold bind, emit, ret. cbn [clock trace initial_world app].
  unfold filter_trace, filter_report.
  rewrite <- !app_assoc. reflexivity.
Qed.

Lemma flushed_length (o : options) (st : loop_state) :
  (length (flushed o st) <= 1)%nat.
Proof.
  unfold flushed, output_mode.
  destruct (count_only o); cbn [negb andb app length]; [lia|].
  destruct (negb (quiet o) && negb (is_empty_segment (out_buf st)));
    cbn; lia.
Qed.

(** X8.  Whatever the command line, the file and the stream, a run of the
    filter tool puts at most one item on standard output: the one bulk
    write of the matching lines or the one count line, never both and
    never more. *)
Theorem filter_writes_at_most_once (argv : list string) :
  (length (stdout_of (trace (snd (filter_main argv initial_world)))) <= 1)%nat.
Proof.
  destruct (filename (parse_args (tl argv) default_options)) as [f|] eqn:Hf.
  - destruct (padded_string_load f) as [json|e] eqn:Hload.
    + destruct (build_line_index json (Z.of_nat (length json)))
        as [idx|] eqn:Hidx.
      * destruct (iterate_many json BATCH_SIZE) as [docs|e] eqn:Hstream.
        -- rewrite (filter_main_indexed argv f json idx docs
                      Hf Hload Hidx Hstream).
           cbn [snd trace]. rewrite Filter.stdout_of_filter_trace.
           apply flushed_length.
        -- unfold filter_main. rewrite Hf.
           unfold bind at 1. unfold emit at 1. rewrite Hload, Hidx.
           unfold bind at 1 2. unfold emit at 1 2. rewrite Hstream.
           cbn. lia.
      * unfold filter_main. rewrite Hf.
        unfold bind at 1. unfold emit at 1. rewrite Hload, Hidx.
        cbn. lia.
    + unfold filter_main. rewrite Hf.
      unfold bind at 1. unfold emit at 1. rewrite Hload.
      cbn. lia.
  - unfold filter_main. rewrite Hf. cbn. lia.
Qed.

(** X9.  The figures of the report.  When the file loads and the stream is set
    up and yields fewer than [2^64] documents, the last event of the run is
    the report on standard error, and it carries: the number of documents
    of the stream as [total], the number of matching documents as
    [matched], which is at most [total], the difference of the two clock
    readings as the time, and [(double)file_size / 1e9 / time] as the
    throughput. *)
Theorem filter_report_figures (argv : list string) (f : string)
    (json : bytes) (docs : list Document) :
  let o := parse_args (tl argv) default_options in
  let elapsed := double_sub (clock_value 1) (clock_value 0) in
  filename o = Some f ->
  padded_string_load f = Success json ->
  Z.of_nat (length json) < 2 ^ SIZE_WIDTH - 1 ->
  iterate_many json BATCH_SIZE = Success docs ->
  Z.of_nat (length docs) < 2 ^ SIZE_WIDTH ->
  exists (w : world) (before : list event),
    filter_main argv initial_world = (Exit 0, w)
    /\ trace w
       = before
         ++ [EvStderr
               (FilterReport (mode_name o) (field o) (threshold o)
                  (Z.of_nat (length docs)) (Z.of_nat (match_count o docs))
                  elapsed
                  (double_div
                     (double_div (double_of_Z (Z.of_nat (length json)))
                        d_1e9) elapsed))]
    /\ (match_count o docs <= length docs)%nat.
Proof.
  intros o elapsed Hf Hload Hlen Hstream Hdocs.
  set (st := filter_run o json (scan json 0 0 []) docs initial_loop_state).
  pose proof (Filter.match_count_le o docs) as Hle.
  destruct (Filter.filter_run_counters o json (scan json 0 0 []) docs
              initial_loop_state) as (Ht & _ & Hm);
    try (cbn; unfold in_size_t; cbn; lia).
  fold st in Ht, Hm. cbn [total matched initial_loop_state] in Ht, Hm.
  rewrite Z.add_0_l in Ht, Hm.
  rewrite Machine.size_t_wrap_small in Ht, Hm
    by (unfold in_size_t; lia).
  exists {| clock := 2; trace := filter_trace o f json docs st |}.
  eexists.
  split; [now apply Filter.filter_main_success|].
  split; [|exact Hle].
  cbn [trace]. unfold filter_trace, filter_report. fold o st.
  rewrite Ht, Hm. rewrite !app_assoc. reflexivity.
Qed.

(** X10.  With [--quiet] and without [--count], a run whose file loads and whose
    stream is set up writes nothing at all to standard output, and reports
    its mode as [filter(no-output)]. *)
Theorem quiet_writes_nothing (argv : list string) (f : string)
    (json : bytes) (docs : list Document) :
  let o := parse_args (tl argv) default_options in
  count_only o = false ->
  quiet o = true ->
  filename o = Some f ->
  padded_string_load f = Success json ->
  Z.of_nat (length json) < 2 ^ SIZE_WIDTH - 1 ->
  iterate_many json BATCH_SIZE = Success docs ->
  exists w : world,
    filter_main argv initial_world = (Exit 0, w)
    /\ stdout_of (trace w) = []
    /\ mode_name o = "filter(no-output)"%string.
Proof.
  intros o Hcount Hquiet Hf Hload Hlen Hstream.
  exists {| clock := 2;
            trace := filter_trace o f json docs
                       (filter_run o json (scan json 0 0 []) docs
                          initial_loop_state) |}.
  split; [now apply Filter.filter_main_success|].
  cbn [trace]. rewrite Filter.stdout_of_filter_trace.
  unfold flushed, output_mode, mode_name. fold o.
  rewrite Hcount, Hquiet. split; reflexivity.
Qed.

Lemma match_count_zero (o : options) (docs : list Document) :
  match_count o docs = O -> Forall (fun d => doc_matches o d = false) docs.
Proof.
  unfold match_count.
  induction docs as [|d docs IH]; [constructor|].
  cbn [filter]. destruct (doc_matches o d) eqn:Hd; [discriminate|].
  intros H. constructor; auto.
Qed.

Lemma filter_run_no_match (o : options) (json : bytes) (idx : list (Z * Z))
    (docs : list Document) :
  Forall (fun d => doc_matches o d = false) docs ->
  forall st : loop_state,
    out_buf (filter_run o json idx docs st) = out_buf st.
Proof.
  unfold filter_run.
  induction 1 as [|d docs Hd _ IH]; intros st; [reflexivity|].
  cbn [fold_left]. rewrite IH. unfold filter_step.
  unfold doc_matches in Hd. now rewrite Hd.
Qed.

(** X11.  When no document of the stream matches, a run whose file loads and
    whose stream is set up performs no write of lines at all, not even an
    empty one: standard output receives the line [0] under [--count] and
    nothing otherwise. *)
Theorem no_match_no_write (argv : list string) (f : string)
    (json : bytes) (docs : list Document) :
  let o := parse_args (tl argv) default_options in
  filename o = Some f ->
  padded_string_load f = Success json ->
  Z.of_nat (length json) < 2 ^ SIZE_WIDTH - 1 ->
  iterate_many json BATCH_SIZE = Success docs ->
  match_count o docs = O ->
  exists w : world,
    filter_main argv initial_world = (Exit 0, w)
    /\ stdout_of (trace w) = if count_only o then [PrintCount 0] else [].
Proof.
  intros o Hf Hload Hlen Hstream Hnone.
  exists {| clock := 2;
            trace := filter_trace o f json docs
                       (filter_run o json (scan json 0 0 []) docs
                          initial_loop_state) |}.
  split; [now apply Filter.filter_main_success|].
  cbn [trace]. rewrite Filter.stdout_of_filter_trace.
  unfold flushed. fold o.
  rewrite (filter_run_no_match o json _ docs (match_count_zero o docs Hnone)).
  rewrite Filter.matched_after_run, Hnone.
  cbn [out_buf initial_loop_state is_empty_segment negb].
  rewrite andb_false_r. reflexivity.
Qed.

Lemma emitted_kept (o : options) (json : bytes) (docs : list Document) :
  forall idx : list (Z * Z),
    emitted o json idx docs
    = kept_lines (map (doc_matches o) docs) (map (slice json) idx).
Proof.
  induction docs as [|d docs IH]; intros [|r idx]; try reflexivity.
  rewrite Filter.emitted_cons, IH. reflexivity.
Qed.

Lemma output_bytes (argv : list string) (f : string) (json : bytes)
    (docs : list Document) :
  let o := parse_args (tl argv) default_options in
  output_mode o = true ->
  filename o = Some f ->
  padded_string_load f = Success json ->
  Z.of_nat (length json) < 2 ^ SIZE_WIDTH - 1 ->
  iterate_many json BATCH_SIZE = Success docs ->
  Z.of_nat (length docs) < 2 ^ SIZE_WIDTH ->
  exists w : world,
    filter_main argv initial_world = (Exit 0, w)
    /\ written_bytes (stdout_of (trace w))
       = kept_lines (map (doc_matches o) docs) (nonempty_segments json).
Proof.
  intros o Hmode Hf Hload Hlen Hstream Hdocs.
  exists {| clock := 2;
            trace := filter_trace o f json docs
                       (filter_run o json (scan json 0 0 []) docs
                          initial_loop_state) |}.
  split; [now apply Filter.filter_main_success|].
  cbn [trace]. rewrite Filter.stdout_of_filter_trace.
  rewrite Filter.written_bytes_flushed_output by assumption.
  destruct (LineIndex.scan_indexed json) as [Hs Hwithin _ _ _].
  assert (Hlen' : Z.of_nat (length json) < 2 ^ SIZE_WIDTH) by lia.
  rewrite (Filter.filter_run_out_buf o json _ (Z.of_nat (length json)) docs
             Hmode Hwithin Hlen' initial_loop_state O);
    [| reflexivity | change (Z.of_nat 0) with 0; lia].
  cbn [out_buf initial_loop_state app skipn].
  now rewrite emitted_kept, Hs.
Qed.

(** X12.  In output mode, when the file loads and the stream is set up and
    yields fewer than [2^64] documents, the bytes on standard output are the
    non-empty lines of the file, in file order, each followed by a newline
    byte, restricted to the lines whose position is that of a matching
    document. *)
Theorem output_in_file_order (argv : list string) (f : string)
    (json : bytes) (docs : list Document) :
  let o := parse_args (tl argv) default_options in
  output_mode o = true ->
  filename o = Some f ->
  padded_string_load f = Success json ->
  Z.of_nat (length json) < 2 ^ SIZE_WIDTH - 1 ->
  iterate_many json BATCH_SIZE = Success docs ->
  Z.of_nat (length docs) < 2 ^ SIZE_WIDTH ->
  exists w : world,
    filter_main argv initial_world = (Exit 0, w)
    /\ written_bytes (stdout_of (trace w))
       = kept_lines (map (doc_matches o) docs) (nonempty_segments json).
Proof. exact (output_bytes argv f json docs). Qed.

Lemma kept_all (keep : list bool) :
  forall lines : list bytes,
    length keep = length lines ->
    Forall (fun b => b = true) keep ->
    kept_lines keep lines = join_lines lines.
Proof.
  unfold kept_lines, join_lines.
  induction keep as [|b keep IH]; intros [|l lines] Hlen Hall;
    try discriminate; [reflexivity|].
  inversion Hall as [|? ? Hb Hall']; subst.
  cbn [combine flat_map fst snd]. rewrite IH; auto.
Qed.

(** X13.  Round trip through the filter.  A file made of lines that are not
    empty and hold no newline byte, each followed by a newline byte, whose
    stream yields one document per line, every one of them matching, comes
    out on standard output byte for byte. *)
Theorem matching_everything_copies_the_file (argv : list string)
    (f : string) (lines : list bytes) (docs : list Document) :
  let o := parse_args (tl argv) default_options in
  output_mode o = true ->
  filename o = Some f ->
  Forall proper_line lines ->
  padded_string_load f = Success (join_lines lines) ->
  Z.of_nat (length (join_lines lines)) < 2 ^ SIZE_WIDTH - 1 ->
  iterate_many (join_lines lines) BATCH_SIZE = Success docs ->
  length docs = length lines ->
  Forall (fun d => doc_matches o d = true) docs ->
  exists w : world,
    filter_main argv initial_world = (Exit 0, w)
    /\ written_bytes (stdout_of (trace w)) = join_lines lines.
Proof.
  intros o Hmode Hf Hlines Hload Hlen Hstream Hcount Hall.
  assert (Hdocs : Z.of_nat (length docs) < 2 ^ SIZE_WIDTH).
  { destruct (LineIndex.scan_indexed (join_lines lines))
      as [Hs _ _ _ Hl].
    rewrite LineIndexFacts.nonempty_segments_join in Hs by assumption.
    rewrite Hcount, <- Hs, length_map. lia. }
  destruct (output_bytes argv f (join_lines lines) docs
              Hmode Hf Hload Hlen Hstream Hdocs) as (w & Hrun & Hout).
  exists w. split; [exact Hrun|].
  rewrite Hout, LineIndexFacts.nonempty_segments_join by assumption.
  apply kept_all.
  - now rewrite length_map.
  - apply Forall_map. exact Hall.
Qed.

Lemma filter_length_mono {A : Type} (p q : A -> bool) (l : list A) :
  (forall x, p x = true -> q x = true) ->
  (length (filter p l) <= length (filter q l))%nat.
Proof.
  intros Hpq. induction l as [|x l IH]; [reflexivity|].
  cbn [filter]. destruct (p x) eqn:Hp.
  - rewrite (Hpq x Hp). cbn [length]. lia.
  - destruct (q x); cbn [length]; lia.
Qed.

(** X14.  Raising the threshold never adds a match: for the same field, the
    documents that match a threshold also match every threshold below
    it, so the count under the higher threshold is at most the count under
    the lower one. *)
Theorem higher_threshold_fewer_matches (o_low o_high : options)
    (docs : list Document) :
  field o_low = field o_high ->
  double_lt (threshold o_low) (threshold o_high) = true ->
  (match_count o_high docs <= match_count o_low docs)%nat.
Proof.
  intros Hfield Hlt. unfold match_count.
  apply filter_length_mono. intros d. unfold doc_matches.
  rewrite Hfield. destruct (get_double d (field o_high)) as [val|];
    [|discriminate].
  cbn [matches]. unfold double_gt. fold (double_lt (threshold o_high) val).
  fold (double_lt (threshold o_low) val).
  intros Hhigh.
  exact (Doubles.double_lt_trans _ _ _ Hlt Hhigh).
Qed.

Lemma nan_threshold_no_match (o : options) (docs : list Document) :
  threshold o = S754_nan -> match_count o docs = O.
Proof.
  intros Hnan. unfold match_count.
  induction docs as [|d docs IH]; [reflexivity|].
  cbn [filter]. unfold doc_matches at 1. rewrite Hnan.
  destruct (get_double d (field o)) as [val|]; [|exact IH].
  cbn [matches]. unfold double_gt, SFltb. cbn [SFcompare]. exact IH.
Qed.

(** X15.  A threshold that is not a number matches nothing: when the argument of
    [--gt] reads as a NaN, every comparison [val > threshold] is false, and
    a run under [--count] prints [0] whatever the documents are. *)
Theorem nan_threshold_counts_zero (argv : list string) (f : string)
    (json : bytes) (docs : list Document) :
  let o := parse_args (tl argv) default_options in
  threshold o = S754_nan ->
  count_only o = true ->
  filename o = Some f ->
  padded_string_load f = Success json ->
  Z.of_nat (length json) < 2 ^ SIZE_WIDTH - 1 ->
  iterate_many json BATCH_SIZE = Success docs ->
  match_count o docs = O
  /\ exists w : world,
       filter_main argv initial_world = (Exit 0, w)
       /\ stdout_of (trace w) = [PrintCount 0].
Proof.
  intros o Hnan Hcount Hf Hload Hlen Hstream.
  pose proof (nan_threshold_no_match o docs Hnan) as Hnone.
  split; [exact Hnone|].
  exists {| clock := 2;
            trace := filter_trace o f json docs
                       (filter_run o json (scan json 0 0 []) docs
                          initial_loop_state) |}.
  split; [now apply Filter.filter_main_success|].
  cbn [trace]. rewrite Filter.stdout_of_filter_trace.
  unfold flushed, output_mode. fold o. rewrite Hcount.
  cbn [negb andb app]. now rewrite Filter.matched_after_run, Hnone.
Qed.

End Runs.

(** The scenario of the specification: three documents, one match. *)
Lemma filter_report_figures_witness :
  exists (w : world) (mode key : string) (gt time gb : double),
    filter_main (E := env_three) argv_output initial_world = (Exit 0, w)
    /\ last (trace w) EvDocument
       = EvStderr (FilterReport mode key gt 3 1 time gb).
Proof.
  destruct (filter_report_figures (E := env_three) argv_output
              "data.ndjson" three_lines three_docs)
    as (w & before & Hrun & Htrace & _); try reflexivity.
  exists w. rewrite Htrace, last_last.
  do 5 eexists. split; [exact Hrun | reflexivity].
Defined.

Lemma quiet_writes_nothing_witness :
  exists w : world,
    filter_main (E := env_three) argv_quiet initial_world = (Exit 0, w)
    /\ stdout_of (trace w) = [].
Proof.
  destruct (quiet_writes_nothing (E := env_three) argv_quiet
              "data.ndjson" three_lines three_docs)
    as (w & Hrun & Hout & _); try reflexivity.
  exists w. split; [exact Hrun | exact Hout].
Defined.

Lemma no_match_no_write_witness :
  exists w : world,
    filter_main (E := env_high_threshold) argv_high_threshold initial_world
    = (Exit 0, w)
    /\ stdout_of (trace w) = [].
Proof.
  destruct (no_match_no_write (E := env_high_threshold) argv_high_threshold
              "data.ndjson" three_lines three_docs)
    as (w & Hrun & Hout); try reflexivity.
  exists w. split; [exact Hrun | exact Hout].
Defined.

Lemma output_in_file_order_witness :
  exists w : world,
    filter_main (E := env_three) argv_output initial_world = (Exit 0, w)
    /\ written_bytes (stdout_of (trace w))
       = list_byte_of_string (record "35" ++ LF).
Proof.
  destruct (output_in_file_order (E := env_three) argv_output
              "data.ndjson" three_lines three_docs)
    as (w & Hrun & Hout); try reflexivity.
  exists w. split; [exact Hrun|]. rewrite Hout. vm_compute. reflexivity.
Defined.

Lemma matching_everything_copies_the_file_witness :
  exists w : world,
    filter_main (E := env_low_threshold) argv_low_threshold initial_world
    = (Exit 0, w)
    /\ written_bytes (stdout_of (trace w)) = three_lines.
Proof.
  destruct (matching_everything_copies_the_file (E := env_low_threshold)
              argv_low_threshold "data.ndjson" three_records three_docs)
    as (w & Hrun & Hout); try reflexivity.
  - repeat constructor; discriminate.
  - repeat constructor.
  - exists w. split; [exact Hrun|]. rewrite Hout. vm_compute. reflexivity.
Defined.

Lemma higher_threshold_fewer_matches_witness :
  (match_count (E := env_three) (set_threshold (double_of_Z 40)
                                   output_options) three_docs
   <= match_count (E := env_three) output_options three_docs)%nat.
Proof.
  apply (higher_threshold_fewer_matches (E := env_three)); reflexivity.
Defined.

Lemma nan_threshold_counts_zero_witness :
  exists w : world,
    filter_main (E := env_nan_threshold) argv_count_nan initial_world
    = (Exit 0, w)
    /\ stdout_of (trace w) = [PrintCount 0].
Proof.
  destruct (nan_threshold_counts_zero (E := env_nan_threshold)
              argv_count_nan "data.ndjson" three_lines three_docs)
    as (_ & w & Hrun & Hout); try reflexivity.
  exists w. split; [exact Hrun | exact Hout].
Defined.

End FilterFacts.

(** * Further properties of the tokenizer tool *)

Module TokenizerFacts.

Section Runs.

Context {E : Env}.

Lemma size_t_wrap_in_size_t (z : Z) : in_size_t (size_t_wrap z).
Proof.
  unfold in_size_t, size_t_wrap. apply Z.mod_pos_bound. reflexivity.
Qed.

Lemma docs_after_wrap (n : nat) (per_pass : Z) :
  forall total : Z,
    in_size_t total ->
    docs_after n per_pass total
    = size_t_wrap (total + Z.of_nat n * per_pass).
Proof.
  induction n as [|n IH]; intros total Htotal.
  - cbn [docs_after]. rewrite Z.mul_0_l, Z.add_0_r.
    now rewrite Machine.size_t_wrap_small.
  - cbn [docs_after]. rewrite IH by apply size_t_wrap_in_size_t.
    unfold size_t_wrap. rewrite Zplus_mod_idemp_l. f_equal. lia.
Qed.

(** X16.  The document count of the summary.  When the file loads, the iteration
    count [N] is between 1 and [INT_MAX] and [N] times the number of
    documents of the stream is below [2^64], the [simdjson_docs] figure on
    standard output is the number of documents of the stream; it is 0 when
    the stream cannot be set up. *)
Theorem summary_counts_the_documents (prog f : string)
    (more : list string) (json : bytes) :
  padded_string_load f = Success json ->
  let argv := prog :: f :: more in
  let iters := iterations argv in
  1 <= iters <= INT_MAX ->
  iters * Z.of_nat (length (stream_docs json)) < 2 ^ SIZE_WIDTH ->
  exists (w : world) (gb best : double),
    tokenizer_main argv initial_world = (Exit 0, w)
    /\ stdout_of (trace w)
       = [PrintSummary gb best (Z.of_nat (length (stream_docs json)))]
    /\ (forall e, iterate_many json BATCH_SIZE = Failure e ->
                  stdout_of (trace w) = [PrintSummary gb best 0]).
Proof.
  intros Hload argv iters Hiters Hsmall.
  destruct (Tokenizer.tokenizer_main_success prog f more json Hload Hiters)
    as (total & first & rest & _ & Htotal & Hrun).
  fold argv iters in Hrun, Htotal. cbv zeta in Hrun.
  set (n := Z.of_nat (length (stream_docs json))) in *.
  assert (Hn : 0 <= n) by (unfold n; lia).
  assert (Hdocs : total / size_t_wrap iters = n).
  { rewrite Htotal, docs_after_wrap by (unfold in_size_t; cbn; lia).
    rewrite Z.add_0_l, Z2Nat.id by lia.
    rewrite (Machine.size_t_wrap_int iters Hiters).
    unfold pass_docs. fold n.
    rewrite (Machine.size_t_wrap_small n) by (unfold in_size_t; nia).
    rewrite Machine.size_t_wrap_small by (unfold in_size_t; nia).
    rewrite Z.mul_comm. apply Z.div_mul. lia. }
  rewrite Hdocs in Hrun.
  eexists. eexists. eexists.
  split; [exact Hrun|].
  cbn [trace].
  rewrite Traces.stdout_of_app, Tokenizer.stdout_of_tokenizer_prefix.
  split; [reflexivity|].
  intros e He. cbn [stdout_of app]. unfold n, stream_docs. now rewrite He.
Qed.

(** X17.  An iteration count of zero or less.  When the file loads, the warm-up
    pass still runs, no timed pass runs and no clock is read, and the
    report stage reads [run_times[0]] of an empty vector: the run reaches
    undefined behaviour, having written nothing to standard output. *)
Theorem no_iterations_no_report (prog f : string) (more : list string)
    (json : bytes) :
  padded_string_load f = Success json ->
  let argv := prog :: f :: more in
  let iters := iterations argv in
  iters <= 0 ->
  tokenizer_main argv initial_world
  = (Undefined,
     {| clock := O;
        trace := [EvLoad f;
                  EvStderr
                    (FileLoaded
                       (double_div (double_of_Z (Z.of_nat (length json)))
                          d_1e9)
                       (Z.of_nat (length json)))]
                 ++ warmup_events json
                 ++ [EvStderr (Running iters)] |}).
Proof.
  intros Hload argv iters Hiters.
  destruct (Tokenizer.tokenizer_main_loaded prog f more json Hload)
    as (total & Hrun & _).
  fold argv iters in Hrun. rewrite Hrun.
  unfold tokenizer_report, recorded_times, tokenizer_prefix.
  replace (Z.to_nat iters) with O by lia.
  cbn [clock_starts map run_times flat_map]. unfold ret.
  rewrite app_nil_r. reflexivity.
Qed.

Lemma filter_now_lookup_events {A : Type} (key : string) (docs : list A) :
  filter is_now (lookup_events key docs) = [].
Proof. induction docs; cbn; auto. Qed.

Lemma filter_now_deref_events {A : Type} (docs : list A) :
  filter is_now (deref_events docs) = [].
Proof. induction docs; cbn; auto. Qed.

Lemma filter_now_passes (json : bytes) (n : nat) :
  forall k : nat,
    length (filter is_now (flat_map (pass_events json) (clock_starts k n)))
    = (2 * n)%nat.
Proof.
  induction n as [|n IH]; intros k; [reflexivity|].
  cbn [clock_starts flat_map]. rewrite filter_app, length_app, IH.
  unfold pass_events. rewrite !filter_app, filter_now_lookup_events.
  cbn. lia.
Qed.

(** X18.  The clock readings of a run.  When the file loads, the run reads the
    clock exactly twice per timed iteration: the trace holds twice the
    iteration count of readings (none for a count of zero or less), and
    none of them belongs to the load or to the warm-up pass. *)
Theorem two_clock_readings_per_iteration (prog f : string)
    (more : list string) (json : bytes) :
  padded_string_load f = Success json ->
  let argv := prog :: f :: more in
  let iters := iterations argv in
  let w := snd (tokenizer_main argv initial_world) in
  clock w = (2 * Z.to_nat iters)%nat
  /\ length (filter is_now (trace w)) = (2 * Z.to_nat iters)%nat
  /\ filter is_now (warmup_events json) = [].
Proof.
  intros Hload argv iters w.
  destruct (Tokenizer.tokenizer_main_loaded prog f more json Hload)
    as (total & Hrun & _).
  fold argv iters in Hrun. unfold w. rewrite Hrun.
  match goal with
  | |- context [tokenizer_report ?s ?i ?st ?w0] =>
      destruct (Tokenizer.tokenizer_report_trace s i st w0)
        as (report & Htr & Hclock & Hrep)
  end.
  rewrite Htr, Hclock. cbn [clock trace].
  assert (Hwarm : filter is_now (warmup_events json) = []).
  { unfold warmup_events. rewrite filter_app, filter_now_deref_events.
    reflexivity. }
  split; [reflexivity|]. split; [|exact Hwarm].
  unfold tokenizer_prefix.
  rewrite !filter_app, !length_app, Hwarm, filter_now_passes.
  assert (Hnone : filter is_now report = []).
  { clear -Hrep. induction Hrep as [|e report (_ & He & _) _ IH];
      [reflexivity|]. cbn [filter]. now rewrite He. }
  rewrite Hnone. cbn. lia.
Qed.

(** X19.  Whatever the command line, the file and the stream, a run of the
    tokenizer tool puts nothing on standard output but its one summary
    line, and that at most once: no document bytes are ever written. *)
Theorem tokenizer_writes_only_its_summary (argv : list string) :
  let out := stdout_of (trace (snd (tokenizer_main argv initial_world))) in
  out = []
  \/ exists (gb best : double) (docs : Z), out = [PrintSummary gb best docs].
Proof.
  cbv zeta.
  destruct argv as [|prog [|f more]]; try (left; reflexivity).
  destruct (padded_string_load f) as [json|e] eqn:Hload.
  - destruct (Tokenizer.tokenizer_main_loaded prog f more json Hload)
      as (total & Hrun & _).
    rewrite Hrun. unfold tokenizer_report.
    cbn [run_times].
    destruct (recorded_times (iterations (prog :: f :: more)))
      as [|first rest].
    + left. unfold ret. cbn [snd trace].
      apply Tokenizer.stdout_of_tokenizer_prefix.
    + destruct (size_t_wrap (iterations (prog :: f :: more)) =? 0).
      * left. unfold ret. cbn [snd trace].
        apply Tokenizer.stdout_of_tokenizer_prefix.
      * right. unfold bind, emit, ret. cbn [snd trace clock].
        rewrite !Traces.stdout_of_app, Tokenizer.stdout_of_tokenizer_prefix.
        cbn. eauto.
  - left. unfold tokenizer_main.
    unfold bind at 1. unfold emit at 1. rewrite Hload. reflexivity.
Qed.

End Runs.

Lemma summary_counts_the_documents_witness :
  exists (w : world) (gb best : double),
    tokenizer_main (E := env_three) argv_default initial_world = (Exit 0, w)
    /\ stdout_of (trace w) = [PrintSummary gb best 3].
Proof.
  assert (Hiters : 1 <= iterations (E := env_three) argv_default <= INT_MAX)
    by (vm_compute; split; discriminate).
  destruct (summary_counts_the_documents (E := env_three) "tokenizer_bench"
              "data.ndjson" [] three_lines eq_refl Hiters)
    as (w & gb & best & Hrun & Hout & _); [vm_compute; reflexivity|].
  exists w, gb, best. split; [exact Hrun | exact Hout].
Defined.

Lemma no_iterations_no_report_witness :
  fst (tokenizer_main (E := env_zero_iterations) argv_zero_iterations
         initial_world)
  = Undefined.
Proof.
  unfold argv_zero_iterations.
  rewrite (no_iterations_no_report (E := env_zero_iterations)
             "tokenizer_bench" "data.ndjson" ["0"%string] three_lines
             eq_refl).
  - reflexivity.
  - vm_compute. discriminate.
Defined.

Lemma two_clock_readings_per_iteration_witness :
  clock (snd (tokenizer_main (E := env_three) argv_three_iterations
                initial_world))
  = 6%nat.
Proof.
  destruct (two_clock_readings_per_iteration (E := env_three)
              "tokenizer_bench" "data.ndjson" ["3"%string] three_lines
              eq_refl) as (Hclock & _).
  exact Hclock.
Defined.

End TokenizerFacts.
